(** * gce-docker: the volume driver of [plugin/volume.go]

    A shallow embedding of the Docker volume driver of bloomapi/gce-docker
    and the properties of its orchestration logic: configuration derivation
    from request options, the order of the provider and filesystem calls of
    every operation, and the mapping of errors to responses. *)

From Stdlib Require Import String Ascii List ZArith NArith Bool Lia Permutation.
Import ListNotations.
Open Scope string_scope.

(** ** Go errors

    An [error] is observed by the driver in two ways only: through its
    [Error()] text and through [os.IsNotExist]. *)
Record error : Type := mk_error {
  Error : string;
  IsNotExist : bool
}.

(** [fmt.Errorf] without a wrapping verb: a plain error, never a "not
    exists" one. *)
Definition Errorf (msg : string) : error :=
  {| Error := msg; IsNotExist := false |}.

(** ** strconv.ParseInt (value, 10, 64)

    The Go standard library's parser at the base and bit size the driver
    uses. [Quote] stands for [strconv.Quote], which only shapes the text of
    the error. *)
Module strconv.
Local Open Scope Z_scope.

Inductive NumErr : Type := ErrSyntax | ErrRange.

Definition NumErr_text (e : NumErr) : string :=
  match e with
  | ErrSyntax => "invalid syntax"
  | ErrRange => "value out of range"
  end.

Definition maxUint64 : Z := 2 ^ 64 - 1.

(** ['0' <= c && c <= '9'], with [d = c - '0']. *)
Definition digit_of (c : ascii) : option Z :=
  let n := Z.of_N (N_of_ascii c) in
  if (48 <=? n) && (n <=? 57) then Some (n - 48) else None.

(** The loop of [ParseUint] over the bytes of the string, at base 10: every
    byte that is not a decimal digit is a syntax error (a letter's digit
    value is at least the base, and an underscore is only read at base 0). *)
Fixpoint ParseUint_loop (s : string) (n : Z) : Z * option NumErr :=
  match s with
  | EmptyString => (n, None)
  | String c rest =>
      match digit_of c with
      | None => (0, Some ErrSyntax)
      | Some d =>
          if n >=? maxUint64 / 10 + 1 then (maxUint64, Some ErrRange)
          else
            let n := n * 10 in
            let n1 := (n + d) mod 2 ^ 64 in
            if (n1 <? n) || (n1 >? maxUint64) then (maxUint64, Some ErrRange)
            else ParseUint_loop rest n1
      end
  end.

Definition ParseUint (s : string) : Z * option NumErr :=
  match s with
  | EmptyString => (0, Some ErrSyntax)
  | _ => ParseUint_loop s 0
  end.

Section Quote.
Variable Quote : string -> string.

Definition NumError (Func Num : string) (Err : NumErr) : error :=
  Errorf ("strconv." ++ Func ++ ": parsing " ++ Quote Num ++ ": "
          ++ NumErr_text Err).

Definition ParseInt (s : string) : Z * option error :=
  match s with
  | EmptyString => (0, Some (NumError "ParseInt" s ErrSyntax))
  | String c0 rest =>
      let s0 := s in
      let neg := Ascii.eqb c0 "-" in
      let s := if Ascii.eqb c0 "+" || Ascii.eqb c0 "-" then rest else s in
      match ParseUint s with
      | (_, Some ErrSyntax) => (0, Some (NumError "ParseInt" s0 ErrSyntax))
      | (un, _) =>
          let cutoff := 2 ^ 63 in
          if negb neg && (un >=? cutoff)
          then (cutoff - 1, Some (NumError "ParseInt" s0 ErrRange))
          else if neg && (un >? cutoff)
          then (- cutoff, Some (NumError "ParseInt" s0 ErrRange))
          else (if neg then - un else un, None)
      end
  end.

End Quote.

(** What the specification calls a valid base-10 integer: an optional sign
    followed by one or more decimal digits. *)
Fixpoint all_digits (s : string) : bool :=
  match s with
  | EmptyString => true
  | String c rest =>
      match digit_of c with Some _ => all_digits rest | None => false end
  end.

Definition digits (s : string) : bool :=
  match s with EmptyString => false | _ => all_digits s end.

Definition is_base10_integer (s : string) : bool :=
  match s with
  | EmptyString => false
  | String c rest =>
      if Ascii.eqb c "+" || Ascii.eqb c "-" then digits rest else digits s
  end.

(** The integer a string of decimal digits denotes, most significant digit
    first, and the integer a signed one denotes. *)
Fixpoint decimal (s : string) (acc : Z) : Z :=
  match s with
  | EmptyString => acc
  | String c rest =>
      match digit_of c with
      | Some d => decimal rest (acc * 10 + d)
      | None => acc
      end
  end.

Definition int_value (s : string) : Z :=
  match s with
  | EmptyString => 0
  | String c rest =>
      if Ascii.eqb c "+" then decimal rest 0
      else if Ascii.eqb c "-" then - decimal rest 0
      else decimal s 0
  end.

End strconv.

(** ** github.com/docker/go-plugins-helpers/volume: requests and responses *)
Module volume.

Module Volume.
Record t : Type := mk { Name : string; Mountpoint : string }.
End Volume.

Module Capability.
Record t : Type := mk { Scope : string }.
End Capability.

(** [Options] is a Go map: its entries are listed in the order in which the
    [range] statement of the request at hand visits them, an order the
    language leaves open; the keys of a map are pairwise distinct. *)
Module Request.
Record t : Type := mk { Name : string; Options : list (string * string) }.
Definition keys (r : t) : list string := map fst (Options r).
End Request.

Module Response.
Record t : Type := mk {
  Mountpoint : string;
  Err : string;
  Volumes : list Volume.t;
  Volume : option Volume.t;
  Capabilities : Capability.t
}.
(** [volume.Response{}]: every field at its zero value. *)
Definition zero : t :=
  {| Mountpoint := ""; Err := ""; Volumes := []; Volume := None;
     Capabilities := {| Capability.Scope := "" |} |}.
End Response.

End volume.

(** ** github.com/bloomapi/gce-docker/providers: the data the driver reads *)
Module providers.

Module DiskConfig.
Record t : Type := mk {
  Name : string;
  Type_ : string;
  SizeGb : Z;
  SourceSnapshot : string;
  SourceImage : string
}.
Definition set_Name (c : t) (v : string) : t :=
  mk v (Type_ c) (SizeGb c) (SourceSnapshot c) (SourceImage c).
Definition set_Type (c : t) (v : string) : t :=
  mk (Name c) v (SizeGb c) (SourceSnapshot c) (SourceImage c).
Definition set_SizeGb (c : t) (v : Z) : t :=
  mk (Name c) (Type_ c) v (SourceSnapshot c) (SourceImage c).
Definition set_SourceSnapshot (c : t) (v : string) : t :=
  mk (Name c) (Type_ c) (SizeGb c) v (SourceImage c).
Definition set_SourceImage (c : t) (v : string) : t :=
  mk (Name c) (Type_ c) (SizeGb c) (SourceSnapshot c) v.
End DiskConfig.

(** An entry of the provider's listing; the driver reads its name and its
    status. *)
Module Disk.
Record t : Type := mk { Name : string; Status : string }.
End Disk.

(** The [DiskProvider] interface, over the state [W] of the world outside
    the driver: every method returns its result and the world it leaves. *)
Module DiskProvider.
Record t (W : Type) : Type := mk {
  Create : DiskConfig.t -> W -> option error * W;
  List : W -> (list Disk.t * option error) * W;
  Attach : DiskConfig.t -> W -> option error * W;
  Detach : DiskConfig.t -> W -> option error * W;
  Delete : DiskConfig.t -> W -> option error * W
}.
Arguments Create {W}.
Arguments List {W}.
Arguments Attach {W}.
Arguments Detach {W}.
Arguments Delete {W}.
End DiskProvider.

End providers.

(** ** package plugin

    The driver of [plugin/volume.go]. The records it writes to its log and
    the elapsed times it measures are left out: they reach neither a
    response nor a call. *)
Module plugin.

(** [os.FileInfo], of which the driver calls [IsDir] only. *)
Module FileInfo.
Record t : Type := mk { IsDir : bool }.
End FileInfo.

(** The [Filesystem] interface the driver holds in its [fs] field. [Stat]
    returns its file information together with its error, as in Go; the
    information is read only when the error is nil. *)
Module Filesystem.
Record t (W : Type) : Type := mk {
  Stat : string -> W -> (FileInfo.t * option error) * W;
  MkdirAll : string -> N -> W -> option error * W;
  Format : string -> W -> option error * W;
  Mount : string -> string -> W -> option error * W;
  Unmount : string -> W -> option error * W
}.
Arguments Stat {W}.
Arguments MkdirAll {W}.
Arguments Format {W}.
Arguments Mount {W}.
Arguments Unmount {W}.
End Filesystem.

Import providers.

(** [type Volume struct { Root string; p providers.DiskProvider; fs Filesystem }] *)
Record Volume (W : Type) : Type := mk_Volume {
  Root : string;
  p : DiskProvider.t W;
  fs : Filesystem.t W
}.
Arguments Root {W}.
Arguments p {W}.
Arguments fs {W}.

(** *** External calls and their trace

    Every call the driver makes on its provider or its filesystem is
    recorded, with its arguments and the error it returned, in the order
    of the calls. *)
Inductive Call : Type :=
| PCreate (c : DiskConfig.t)
| PList
| PAttach (c : DiskConfig.t)
| PDetach (c : DiskConfig.t)
| PDelete (c : DiskConfig.t)
| FStat (path : string)
| FMkdirAll (path : string) (perm : N)
| FFormat (dev : string)
| FMount (dev target : string)
| FUnmount (target : string).

Definition Event : Type := (Call * option error)%type.

Record State (W : Type) : Type := mk_State {
  world : W;
  calls : list Event
}.
Arguments mk_State {W}.
Arguments world {W}.
Arguments calls {W}.

(** The driver's code threads the outside world through its calls: a state
    monad over the world and the trace. *)
Definition M (W A : Type) : Type := State W -> A * State W.

Definition ret {W A : Type} (a : A) : M W A := fun st => (a, st).

Definition bind {W A B : Type} (m : M W A) (k : A -> M W B) : M W B :=
  fun st => let (a, st') := m st in k a st'.

(** One external call: run it on the world, append it to the trace. *)
Definition call {W A : Type} (c : Call) (f : W -> A * W)
  (err : A -> option error) : M W A :=
  fun st =>
    let (a, w') := f (world st) in
    (a, {| world := w'; calls := calls st ++ [(c, err a)] |}).

Notation "x <- m ;; k" := (bind m (fun x => k))
  (at level 61, m at next level, right associativity).

(** [0755], the permissions [createMountPoint] passes to [MkdirAll]. *)
Definition perm_0755 : N := 7 * 64 + 5 * 8 + 5.

(** The operations of the driver, as the transport layer dispatches them. *)
Inductive Op : Type :=
| OpCreate | OpList | OpCapabilities | OpGet
| OpRemove | OpPath | OpMount | OpUnmount.

(** The option keys [createDiskConfig] knows. *)
Definition is_option_key (key : string) : bool :=
  (key =? "Name") || (key =? "Type") || (key =? "SizeGb")
  || (key =? "SourceSnapshot") || (key =? "SourceImage").

Section Driver.

(** [strconv.Quote], the [%q] verb of [fmt.Errorf]. *)
Variable Quote : string -> string.

(** Modelled from the spec: the methods of [providers.DiskConfig], whose
    file is not part of the sources at hand. [Validate] is the structural
    validation step, returning the first violation found; [MountPoint] and
    [Dev] are the deterministic mount path and device path, pure functions
    of the configuration (and the root). *)
Variable Validate : DiskConfig.t -> option error.
Variable MountPoint : DiskConfig.t -> string -> string.
Variable Dev : DiskConfig.t -> string.

Variable W : Type.

(** [buildReponseError]: [volume.Response{Err: err.Error()}] (the log
    record it writes is not modelled). *)
Definition buildReponseError (err : error) : volume.Response.t :=
  {| volume.Response.Mountpoint := "";
     volume.Response.Err := Error err;
     volume.Response.Volumes := [];
     volume.Response.Volume := None;
     volume.Response.Capabilities := {| volume.Capability.Scope := "" |} |}.

(** The [range] loop of [createDiskConfig] over the options, in the order
    of the visit; [inr] is the [return nil, err] of the loop body. *)
Fixpoint createDiskConfig_range (config : DiskConfig.t)
  (options : list (string * string)) : DiskConfig.t + error :=
  match options with
  | [] => inl config
  | (key, value) :: rest =>
      if key =? "Name" then
        createDiskConfig_range (DiskConfig.set_Name config value) rest
      else if key =? "Type" then
        createDiskConfig_range (DiskConfig.set_Type config value) rest
      else if key =? "SizeGb" then
        match strconv.ParseInt Quote value with
        | (_, Some err) => inr err
        | (n, None) =>
            createDiskConfig_range (DiskConfig.set_SizeGb config n) rest
        end
      else if key =? "SourceSnapshot" then
        createDiskConfig_range (DiskConfig.set_SourceSnapshot config value) rest
      else if key =? "SourceImage" then
        createDiskConfig_range (DiskConfig.set_SourceImage config value) rest
      else inr (Errorf ("unknown option " ++ Quote key))
  end.

(** [createDiskConfig]: [inl config] when the error returned is nil, [inr
    err] otherwise (no caller reads the configuration next to an error). *)
Definition createDiskConfig (r : volume.Request.t) : DiskConfig.t + error :=
  let config :=
    {| DiskConfig.Name := volume.Request.Name r; DiskConfig.Type_ := "";
       DiskConfig.SizeGb := 0%Z; DiskConfig.SourceSnapshot := "";
       DiskConfig.SourceImage := "" |} in
  match createDiskConfig_range config (volume.Request.Options r) with
  | inr err => inr err
  | inl config =>
      match Validate config with
      | Some err => inr err
      | None => inl config
      end
  end.

Definition createMountPoint (v : Volume W) (c : DiskConfig.t)
  : M W (option error) :=
  let target := MountPoint c (Root v) in
  st <- call (FStat target) (Filesystem.Stat (fs v) target) snd ;;
  let (fi, err) := st in
  if match err with Some e => IsNotExist e | None => false end then
    call (FMkdirAll target perm_0755)
         (Filesystem.MkdirAll (fs v) target perm_0755) id
  else
    match err with
    | Some e => ret (Some e)
    | None =>
        if negb (FileInfo.IsDir fi) then
          ret (Some (Errorf ("error the mountpoint " ++ Quote target
                             ++ " already exists")))
        else ret None
    end.

Definition Create (v : Volume W) (r : volume.Request.t)
  : M W volume.Response.t :=
  match createDiskConfig r with
  | inr err => ret (buildReponseError err)
  | inl config =>
      err <- call (PCreate config) (DiskProvider.Create (p v) config) id ;;
      match err with
      | Some err => ret (buildReponseError err)
      | None => ret volume.Response.zero
      end
  end.

(** The loop of [List]: every disk whose status is not READY is skipped. *)
Fixpoint List_range (disks : list Disk.t) (r : volume.Response.t)
  : volume.Response.t :=
  match disks with
  | [] => r
  | d :: rest =>
      if negb (Disk.Status d =? "READY") then List_range rest r
      else
        List_range rest
          {| volume.Response.Mountpoint := volume.Response.Mountpoint r;
             volume.Response.Err := volume.Response.Err r;
             volume.Response.Volumes :=
               volume.Response.Volumes r
               ++ [ {| volume.Volume.Name := Disk.Name d;
                       volume.Volume.Mountpoint := "" |} ];
             volume.Response.Volume := volume.Response.Volume r;
             volume.Response.Capabilities := volume.Response.Capabilities r |}
  end.

Definition List (v : Volume W) (_ : volume.Request.t)
  : M W volume.Response.t :=
  res <- call PList (DiskProvider.List (p v)) snd ;;
  let (disks, err) := res in
  match err with
  | Some err => ret (buildReponseError err)
  | None => ret (List_range disks volume.Response.zero)
  end.

Definition Capabilities (v : Volume W) (_ : volume.Request.t)
  : M W volume.Response.t :=
  ret {| volume.Response.Mountpoint := ""; volume.Response.Err := "";
         volume.Response.Volumes := []; volume.Response.Volume := None;
         volume.Response.Capabilities :=
           {| volume.Capability.Scope := "local" |} |}.

(** The loop of [Get]: a disk of another name is skipped; at a disk of the
    requested name the configuration is derived, an error of the derivation
    returns at once, and the loop goes on after a match. *)
Fixpoint Get_range (v : Volume W) (r : volume.Request.t)
  (disks : list Disk.t) (resp : volume.Response.t) : volume.Response.t :=
  match disks with
  | [] => resp
  | d :: rest =>
      if negb (Disk.Name d =? volume.Request.Name r) then
        Get_range v r rest resp
      else
        match createDiskConfig r with
        | inr err => buildReponseError err
        | inl config =>
            Get_range v r rest
              {| volume.Response.Mountpoint := volume.Response.Mountpoint resp;
                 volume.Response.Err := volume.Response.Err resp;
                 volume.Response.Volumes := volume.Response.Volumes resp;
                 volume.Response.Volume :=
                   Some {| volume.Volume.Name := Disk.Name d;
                           volume.Volume.Mountpoint :=
                             MountPoint config (Root v) |};
                 volume.Response.Capabilities :=
                   volume.Response.Capabilities resp |}
        end
  end.

Definition Get (v : Volume W) (r : volume.Request.t)
  : M W volume.Response.t :=
  res <- call PList (DiskProvider.List (p v)) snd ;;
  let (disks, err) := res in
  match err with
  | Some err => ret (buildReponseError err)
  | None => ret (Get_range v r disks volume.Response.zero)
  end.

Definition Remove (v : Volume W) (r : volume.Request.t)
  : M W volume.Response.t :=
  match createDiskConfig r with
  | inr err => ret (buildReponseError err)
  | inl config =>
      err <- call (PDelete config) (DiskProvider.Delete (p v) config) id ;;
      match err with
      | Some err => ret (buildReponseError err)
      | None => ret volume.Response.zero
      end
  end.

(** [volume.Response{Mountpoint: mnt}] *)
Definition Response_Mountpoint (mnt : string) : volume.Response.t :=
  {| volume.Response.Mountpoint := mnt; volume.Response.Err := "";
     volume.Response.Volumes := []; volume.Response.Volume := None;
     volume.Response.Capabilities := {| volume.Capability.Scope := "" |} |}.

Definition Path (v : Volume W) (r : volume.Request.t)
  : M W volume.Response.t :=
  match createDiskConfig r with
  | inr err => ret (buildReponseError err)
  | inl config =>
      let mnt := MountPoint config (Root v) in
      err <- createMountPoint v config ;;
      match err with
      | Some err => ret (buildReponseError err)
      | None => ret (Response_Mountpoint mnt)
      end
  end.

Definition Mount (v : Volume W) (r : volume.Request.t)
  : M W volume.Response.t :=
  match createDiskConfig r with
  | inr err => ret (buildReponseError err)
  | inl config =>
      err <- createMountPoint v config ;;
      match err with
      | Some err => ret (buildReponseError err)
      | None =>
      err <- call (PAttach config) (DiskProvider.Attach (p v) config) id ;;
      match err with
      | Some err => ret (buildReponseError err)
      | None =>
      err <- call (FFormat (Dev config))
                  (Filesystem.Format (fs v) (Dev config)) id ;;
      match err with
      | Some err => ret (buildReponseError err)
      | None =>
      err <- call (FMount (Dev config) (MountPoint config (Root v)))
                  (Filesystem.Mount (fs v) (Dev config)
                                    (MountPoint config (Root v))) id ;;
      match err with
      | Some err => ret (buildReponseError err)
      | None => ret (Response_Mountpoint (MountPoint config (Root v)))
      end end end end
  end.

Definition Unmount (v : Volume W) (r : volume.Request.t)
  : M W volume.Response.t :=
  match createDiskConfig r with
  | inr err => ret (buildReponseError err)
  | inl config =>
      err <- call (FUnmount (MountPoint config (Root v)))
                  (Filesystem.Unmount (fs v) (MountPoint config (Root v))) id ;;
      match err with
      | Some err => ret (buildReponseError err)
      | None =>
      err <- call (PDetach config) (DiskProvider.Detach (p v) config) id ;;
      match err with
      | Some err => ret (buildReponseError err)
      | None => ret volume.Response.zero
      end end
  end.

(** The upward interface: one operation per request kind. *)
Definition handle (op : Op) : Volume W -> volume.Request.t
  -> M W volume.Response.t :=
  match op with
  | OpCreate => Create
  | OpList => List
  | OpCapabilities => Capabilities
  | OpGet => Get
  | OpRemove => Remove
  | OpPath => Path
  | OpMount => Mount
  | OpUnmount => Unmount
  end.

(** An operation run from a world with an empty trace: the response, and
    the calls it made, in order. *)
Definition run (op : Op) (v : Volume W) (r : volume.Request.t) (w : W)
  : volume.Response.t * list Event :=
  let (resp, st) := handle op v r {| world := w; calls := [] |} in
  (resp, calls st).

(** *** The vocabulary of the properties *)

(** The operations whose first step is the derivation of the configuration
    ([Get] derives inside its loop, [List] and [Capabilities] never). *)
Definition derives_first (op : Op) : bool :=
  match op with
  | OpCreate | OpRemove | OpPath | OpMount | OpUnmount => true
  | OpList | OpCapabilities | OpGet => false
  end.

(** What an entry of the options must be for the [range] loop to go past
    it: a known key, and a value [strconv.ParseInt] accepts at SizeGb. *)
Definition entry_ok (kv : string * string) : Prop :=
  is_option_key (fst kv) = true
  /\ (fst kv = "SizeGb" -> snd (strconv.ParseInt Quote (snd kv)) = None).

(** A configuration error of the [range] loop over [options]: the unknown
    option error of one of its keys, or the error of [strconv.ParseInt] on
    one of its SizeGb values. *)
Definition config_error (options : list (string * string)) (e : error)
  : Prop :=
  (exists key, In key (map fst options) /\ is_option_key key = false
               /\ e = Errorf ("unknown option " ++ Quote key))
  \/ (exists value, In ("SizeGb", value) options
                    /\ snd (strconv.ParseInt Quote value) = Some e).

(** The error [createMountPoint] makes when the mount point exists and is
    not a directory. *)
Definition conflict_error (target : string) : error :=
  Errorf ("error the mountpoint " ++ Quote target ++ " already exists").

(** A listed disk has the name of the request. *)
Definition listed (r : volume.Request.t) (disks : list Disk.t) : bool :=
  existsb (fun d => Disk.Name d =? volume.Request.Name r) disks.

(** The calls that are steps of an operation by themselves; [Stat] and
    [MkdirAll] are made inside the step [createMountPoint]. *)
Definition is_step_call (c : Call) : bool :=
  match c with
  | FStat _ | FMkdirAll _ _ => false
  | _ => true
  end.

(** [arises v op r w e]: running [op] on [r] from the world [w], the error
    [e] is returned by one of the steps of the operation: the derivation of
    the configuration, [createMountPoint], or a call of the provider or of
    the filesystem. *)
Inductive arises (v : Volume W) (op : Op) (r : volume.Request.t) (w : W)
  : error -> Prop :=
| arises_derive e :
    derives_first op = true ->
    createDiskConfig r = inr e ->
    arises v op r w e
| arises_derive_Get e disks w' :
    op = OpGet ->
    DiskProvider.List (p v) w = ((disks, None), w') ->
    listed r disks = true ->
    createDiskConfig r = inr e ->
    arises v op r w e
| arises_createMountPoint e config st' :
    op = OpPath \/ op = OpMount ->
    createDiskConfig r = inl config ->
    createMountPoint v config {| world := w; calls := [] |} = (Some e, st') ->
    arises v op r w e
| arises_call e c :
    is_step_call c = true ->
    In (c, Some e) (snd (run op v r w)) ->
    arises v op r w e.

(** The error the [range] loop returns at an entry, if any: the unknown
    option error at a key it does not know, the error of [strconv.ParseInt]
    at SizeGb. *)
Definition entry_fault (kv : string * string) : option error :=
  if is_option_key (fst kv) then
    if fst kv =? "SizeGb" then snd (strconv.ParseInt Quote (snd kv)) else None
  else Some (Errorf ("unknown option " ++ Quote (fst kv))).

(** A call made for the configuration [config] under the root [root]: on
    that configuration, on its mount path, on its device. *)
Definition concerns (config : DiskConfig.t) (root : string) (c : Call)
  : Prop :=
  match c with
  | PCreate c' | PAttach c' | PDetach c' | PDelete c' => c' = config
  | PList => True
  | FStat t | FUnmount t => t = MountPoint config root
  | FMkdirAll t perm => t = MountPoint config root /\ perm = perm_0755
  | FFormat d => d = Dev config
  | FMount d t => d = Dev config /\ t = MountPoint config root
  end.

(** The collaborators of [v] never fail on the configuration [config]:
    in every world the calls of the provider on it, and the calls of the
    filesystem on its mount path and its device, return no error, and Stat
    finds a directory at the mount path or reports that it does not
    exist. *)
Definition succeeds_everywhere (v : Volume W) (config : DiskConfig.t)
  : Prop :=
  let target := MountPoint config (Root v) in
  let dev := Dev config in
  (forall w, fst (DiskProvider.Create (p v) config w) = None)
  /\ (forall w, fst (DiskProvider.Delete (p v) config w) = None)
  /\ (forall w, fst (DiskProvider.Attach (p v) config w) = None)
  /\ (forall w, fst (DiskProvider.Detach (p v) config w) = None)
  /\ (forall w,
        match fst (Filesystem.Stat (fs v) target w) with
        | (fi, None) => FileInfo.IsDir fi = true
        | (_, Some e) => IsNotExist e = true
        end)
  /\ (forall w, fst (Filesystem.MkdirAll (fs v) target perm_0755 w) = None)
  /\ (forall w, fst (Filesystem.Format (fs v) dev w) = None)
  /\ (forall w, fst (Filesystem.Mount (fs v) dev target w) = None)
  /\ (forall w, fst (Filesystem.Unmount (fs v) target w) = None).

(** Whether Stat, at the mount path of [config] in the world [w], reports
    an error. *)
Definition stat_fails (v : Volume W) (config : DiskConfig.t) (w : W)
  : bool :=
  match snd (fst (Filesystem.Stat (fs v) (MountPoint config (Root v)) w)) with
  | Some _ => true
  | None => false
  end.

End Driver.


Definition is_FFormat (c : Call) : bool :=
  match c with FFormat _ => true | _ => false end.
Definition is_FMount (c : Call) : bool :=
  match c with FMount _ _ => true | _ => false end.
Definition is_PDetach (c : Call) : bool :=
  match c with PDetach _ => true | _ => false end.
Definition is_provider_call (c : Call) : bool :=
  match c with
  | PCreate _ | PList | PAttach _ | PDetach _ | PDelete _ => true
  | _ => false
  end.

(** The names of the listed disks whose status is the ready one, in the
    order of the listing, and the volume the response holds for a name. *)
Definition ready_names (disks : list Disk.t) : list string :=
  map Disk.Name (filter (fun d => Disk.Status d =? "READY") disks).

Definition volume_named (name : string) : volume.Volume.t :=
  {| volume.Volume.Name := name; volume.Volume.Mountpoint := "" |}.

(** A response with a list of volumes and nothing else, and one with a
    volume and nothing else. *)
Definition Response_Volumes (vols : list volume.Volume.t)
  : volume.Response.t :=
  {| volume.Response.Mountpoint := ""; volume.Response.Err := "";
     volume.Response.Volumes := vols; volume.Response.Volume := None;
     volume.Response.Capabilities := {| volume.Capability.Scope := "" |} |}.

Definition Response_Volume (name mountpoint : string) : volume.Response.t :=
  {| volume.Response.Mountpoint := ""; volume.Response.Err := "";
     volume.Response.Volumes := [];
     volume.Response.Volume :=
       Some {| volume.Volume.Name := name;
               volume.Volume.Mountpoint := mountpoint |};
     volume.Response.Capabilities := {| volume.Capability.Scope := "" |} |}.

(** The capability descriptor of the driver: the scope is local. *)
Definition Response_Capabilities_local : volume.Response.t :=
  {| volume.Response.Mountpoint := ""; volume.Response.Err := "";
     volume.Response.Volumes := []; volume.Response.Volume := None;
     volume.Response.Capabilities :=
       {| volume.Capability.Scope := "local" |} |}.

(** No call of the trace is of the kind [kind]. *)
Definition never_called (kind : Call -> bool) (evs : list Event) : Prop :=
  forallb (fun ev => negb (kind (fst ev))) evs = true.

(** The calls of a successful [Mount], in order; [mkdir] tells whether
    [Stat] reported that the mount point does not exist. *)
Definition Mount_calls (mkdir : bool) (config : DiskConfig.t)
  (dev target : string) : list Call :=
  FStat target
  :: (if mkdir then [FMkdirAll target perm_0755] else [])
  ++ [PAttach config; FFormat dev; FMount dev target].

(** The value of a map of options at a key. *)
Fixpoint lookup (key : string) (options : list (string * string))
  : option string :=
  match options with
  | [] => None
  | (k, v) :: rest => if k =? key then Some v else lookup key rest
  end.

(** The configuration [config] with the fields the options name replaced
    by their values, the size by the integer its value denotes. *)
Definition with_options (config : DiskConfig.t)
  (options : list (string * string)) : DiskConfig.t :=
  {| DiskConfig.Name :=
       match lookup "Name" options with
       | Some v => v | None => DiskConfig.Name config end;
     DiskConfig.Type_ :=
       match lookup "Type" options with
       | Some v => v | None => DiskConfig.Type_ config end;
     DiskConfig.SizeGb :=
       match lookup "SizeGb" options with
       | Some v => strconv.int_value v | None => DiskConfig.SizeGb config end;
     DiskConfig.SourceSnapshot :=
       match lookup "SourceSnapshot" options with
       | Some v => v | None => DiskConfig.SourceSnapshot config end;
     DiskConfig.SourceImage :=
       match lookup "SourceImage" options with
       | Some v => v | None => DiskConfig.SourceImage config end |}.

(** The configuration a request asks for: its name, the other fields at
    their zero values, then its options. *)
Definition config_of (r : volume.Request.t) : DiskConfig.t :=
  with_options
    {| DiskConfig.Name := volume.Request.Name r; DiskConfig.Type_ := "";
       DiskConfig.SizeGb := 0%Z; DiskConfig.SourceSnapshot := "";
       DiskConfig.SourceImage := "" |}
    (volume.Request.Options r).

(** The calls an operation may make, and how many at most. *)
Definition op_allows (op : Op) (c : Call) : bool :=
  match op, c with
  | OpCreate, PCreate _ => true
  | OpList, PList => true
  | OpGet, PList => true
  | OpRemove, PDelete _ => true
  | OpPath, FStat _ => true
  | OpPath, FMkdirAll _ _ => true
  | OpMount, FStat _ => true
  | OpMount, FMkdirAll _ _ => true
  | OpMount, PAttach _ => true
  | OpMount, FFormat _ => true
  | OpMount, FMount _ _ => true
  | OpUnmount, FUnmount _ => true
  | OpUnmount, PDetach _ => true
  | _, _ => false
  end.

Definition max_calls (op : Op) : nat :=
  match op with
  | OpCapabilities => 0
  | OpCreate | OpList | OpGet | OpRemove => 1
  | OpPath | OpUnmount => 2
  | OpMount => 5
  end.

(** The calls of an operation that runs to its end, and the response it
    then gives, for the operations that start with the derivation. *)
Definition full_calls (op : Op) (mkdir : bool) (config : DiskConfig.t)
  (dev target : string) : list Call :=
  match op with
  | OpCreate => [PCreate config]
  | OpRemove => [PDelete config]
  | OpPath => FStat target :: (if mkdir then [FMkdirAll target perm_0755]
                               else [])
  | OpMount => Mount_calls mkdir config dev target
  | OpUnmount => [FUnmount target; PDetach config]
  | OpList | OpGet => [PList]
  | OpCapabilities => []
  end.

Definition success_response (op : Op) (target : string)
  : volume.Response.t :=
  match op with
  | OpPath | OpMount =>
      {| volume.Response.Mountpoint := target; volume.Response.Err := "";
         volume.Response.Volumes := []; volume.Response.Volume := None;
         volume.Response.Capabilities :=
           {| volume.Capability.Scope := "" |} |}
  | _ => volume.Response.zero
  end.

(** A call after which the operation goes on: it returned no error, or it
    is the Stat that reported that the path does not exist. *)
Definition call_passed (ev : Event) : bool :=
  match ev with
  | (_, None) => true
  | (FStat _, Some e) => IsNotExist e
  | (_, Some _) => false
  end.

End plugin.

(** ** A scripted world

    A provider and a filesystem whose calls return what a script says; the
    world is the number of calls made so far. It instantiates the
    interfaces at concrete inputs. *)
Module scripted.
Import providers plugin.

Record Script : Type := mk_Script {
  create_err : option error;
  list_result : list Disk.t * option error;
  attach_err : option error;
  detach_err : option error;
  delete_err : option error;
  stat_result : FileInfo.t * option error;
  mkdirall_err : option error;
  format_err : option error;
  mount_err : option error;
  unmount_err : option error
}.

Definition provider (s : Script) : DiskProvider.t nat :=
  {| DiskProvider.Create := fun _ w => (create_err s, S w);
     DiskProvider.List := fun w => (list_result s, S w);
     DiskProvider.Attach := fun _ w => (attach_err s, S w);
     DiskProvider.Detach := fun _ w => (detach_err s, S w);
     DiskProvider.Delete := fun _ w => (delete_err s, S w) |}.

Definition filesystem (s : Script) : Filesystem.t nat :=
  {| Filesystem.Stat := fun _ w => (stat_result s, S w);
     Filesystem.MkdirAll := fun _ _ w => (mkdirall_err s, S w);
     Filesystem.Format := fun _ w => (format_err s, S w);
     Filesystem.Mount := fun _ _ w => (mount_err s, S w);
     Filesystem.Unmount := fun _ w => (unmount_err s, S w) |}.

(** [NewVolume]: the root is "/mnt/". *)
Definition driver (s : Script) : Volume nat :=
  {| Root := "/mnt/"; p := provider s; fs := filesystem s |}.

(** Every call succeeds; the mount point is a directory; two disks are
    listed, one of them ready. *)
Definition all_ok : Script :=
  {| create_err := None;
     list_result :=
       ([ {| Disk.Name := "A"; Disk.Status := "READY" |};
          {| Disk.Name := "B"; Disk.Status := "PENDING" |} ], None);
     attach_err := None; detach_err := None; delete_err := None;
     stat_result := ({| FileInfo.IsDir := true |}, None);
     mkdirall_err := None; format_err := None; mount_err := None;
     unmount_err := None |}.

Definition disk_busy : error := Errorf "disk busy".
Definition device_busy : error := Errorf "device or resource busy".
Definition no_such_file : error :=
  {| Error := "no such file or directory"; IsNotExist := true |}.
Definition permission_denied : error := Errorf "permission denied".

Definition attach_fails : Script :=
  {| create_err := None; list_result := ([], None);
     attach_err := Some disk_busy; detach_err := None; delete_err := None;
     stat_result := ({| FileInfo.IsDir := false |}, Some no_such_file);
     mkdirall_err := None; format_err := None; mount_err := None;
     unmount_err := None |}.

Definition unmount_fails : Script :=
  {| create_err := None; list_result := ([], None);
     attach_err := None; detach_err := None; delete_err := None;
     stat_result := ({| FileInfo.IsDir := true |}, None);
     mkdirall_err := None; format_err := None; mount_err := None;
     unmount_err := Some device_busy |}.

Definition regular_file : Script :=
  {| create_err := None; list_result := ([], None);
     attach_err := None; detach_err := None; delete_err := None;
     stat_result := ({| FileInfo.IsDir := false |}, None);
     mkdirall_err := None; format_err := None; mount_err := None;
     unmount_err := None |}.

(** [strconv.Quote] on a string of printable ASCII with no quote and no
    backslash in it: the string between two double quotes. *)
Definition dquote : string := String (ascii_of_nat 34) EmptyString.
Definition Quote (s : string) : string := dquote ++ s ++ dquote.

(** Modelled from the spec: [providers.DiskConfig.Validate] at its minimum,
    rejecting a configuration whose name is empty and no other. *)
Definition Validate (c : DiskConfig.t) : option error :=
  if DiskConfig.Name c =? "" then Some (Errorf "name is required") else None.

(** Modelled from the spec: [providers.DiskConfig.MountPoint], the root
    joined with the name, and [providers.DiskConfig.Dev], a device path
    computed from the name. *)
Definition MountPoint (c : DiskConfig.t) (root : string) : string :=
  root ++ DiskConfig.Name c.
Definition Dev (c : DiskConfig.t) : string :=
  "/dev/disk/by-id/" ++ DiskConfig.Name c.

Definition run (s : Script) (op : Op) (r : volume.Request.t)
  : volume.Response.t * list Event :=
  plugin.run Quote Validate MountPoint Dev nat op (driver s) r O.

(** Sample requests. *)
Definition data1 : volume.Request.t :=
  {| volume.Request.Name := "data1"; volume.Request.Options := [] |}.
Definition data1_bogus : volume.Request.t :=
  {| volume.Request.Name := "data1";
     volume.Request.Options := [("Bogus", "1")] |}.
Definition A_bogus_ten : volume.Request.t :=
  {| volume.Request.Name := "A";
     volume.Request.Options := [("SizeGb", "ten"); ("Bogus", "1")] |}.
Definition A_renamed : volume.Request.t :=
  {| volume.Request.Name := "A";
     volume.Request.Options := [("Type", "pd-ssd"); ("Name", "data2")] |}.
(** The configurations of the requests [data1] and [A_renamed]. *)
Definition config_data1 : DiskConfig.t :=
  {| DiskConfig.Name := "data1"; DiskConfig.Type_ := "";
     DiskConfig.SizeGb := 0; DiskConfig.SourceSnapshot := "";
     DiskConfig.SourceImage := "" |}.
Definition config_data2 : DiskConfig.t :=
  {| DiskConfig.Name := "data2"; DiskConfig.Type_ := "pd-ssd";
     DiskConfig.SizeGb := 0; DiskConfig.SourceSnapshot := "";
     DiskConfig.SourceImage := "" |}.
Definition C_plain : volume.Request.t :=
  {| volume.Request.Name := "C"; volume.Request.Options := [] |}.

(** A request for the disk B, listed and pending, and its configuration. *)
Definition B_plain : volume.Request.t :=
  {| volume.Request.Name := "B"; volume.Request.Options := [] |}.
Definition config_B : DiskConfig.t :=
  {| DiskConfig.Name := "B"; DiskConfig.Type_ := "";
     DiskConfig.SizeGb := 0; DiskConfig.SourceSnapshot := "";
     DiskConfig.SourceImage := "" |}.

(** The request [A_renamed] with its options visited in the other order. *)
Definition A_renamed' : volume.Request.t :=
  {| volume.Request.Name := "A";
     volume.Request.Options := [("Name", "data2"); ("Type", "pd-ssd")] |}.



(** A provider whose Create fails with an error of empty text. *)
Definition silent : error := Errorf "".
Definition create_fails_silently : Script :=
  {| create_err := Some silent; list_result := ([], None);
     attach_err := None; detach_err := None; delete_err := None;
     stat_result := ({| FileInfo.IsDir := true |}, None);
     mkdirall_err := None; format_err := None; mount_err := None;
     unmount_err := None |}.

End scripted.

(** * Properties *)

(** ** strconv.ParseInt at base 10 and 64 bits *)
Section ParseInt_facts.
Local Open Scope Z_scope.
Import strconv.
Variable Quote : string -> string.

Lemma digit_of_range (c : ascii) (d : Z) :
  digit_of c = Some d -> 0 <= d <= 9.
Proof.
  unfold digit_of. intros H.
  destruct ((48 <=? Z.of_N (N_of_ascii c)) && (Z.of_N (N_of_ascii c) <=? 57))
    eqn:E; inversion H; subst.
  apply andb_true_iff in E. lia.
Qed.

Lemma decimal_ge (s : string) : forall acc, 0 <= acc -> acc <= decimal s acc.
Proof.
  induction s as [|c rest IH]; intros acc Hacc; simpl; [lia|].
  destruct (digit_of c) as [d|] eqn:Ed; [|lia].
  apply digit_of_range in Ed.
  specialize (IH (acc * 10 + d)). lia.
Qed.

(** When the loop returns no error, its string is made of digits, and the
    result is the value they denote after [n0], within 64 bits. *)
Lemma ParseUint_loop_ok (s : string) : forall n0 n,
  0 <= n0 <= maxUint64 ->
  ParseUint_loop s n0 = (n, None) ->
  all_digits s = true /\ n = decimal s n0 /\ 0 <= n <= maxUint64.
Proof.
  induction s as [|c rest IH]; intros n0 n Hn0 H;
    cbn [ParseUint_loop all_digits decimal] in *.
  - inversion H; subst. auto.
  - destruct (digit_of c) as [d|] eqn:Ed; [|discriminate].
    pose proof (digit_of_range _ _ Ed) as Hd.
    change (maxUint64 / 10 + 1) with 1844674407370955162 in H.
    unfold maxUint64 in *.
    change (2 ^ 64) with 18446744073709551616 in *.
    destruct (n0 >=? 1844674407370955162) eqn:E1; [discriminate|].
    cbv zeta in H.
    destruct (((n0 * 10 + d) mod 18446744073709551616 <? n0 * 10)
              || ((n0 * 10 + d) mod 18446744073709551616
                  >? 18446744073709551616 - 1)) eqn:E2; [discriminate|].
    apply orb_false_iff in E2 as [E2a E2b].
    apply Z.ltb_ge in E2a.
    rewrite Z.geb_leb in E1. apply Z.leb_gt in E1.
    assert (Hsmall : (n0 * 10 + d) mod 18446744073709551616 = n0 * 10 + d).
    { destruct (Z_lt_dec (n0 * 10 + d) 18446744073709551616) as [Hlt|Hge].
      - apply Z.mod_small. lia.
      - exfalso.
        replace (n0 * 10 + d)
          with ((n0 * 10 + d - 18446744073709551616)
                + 1 * 18446744073709551616) in E2a at 1 by ring.
        rewrite Z.mod_add in E2a by lia.
        rewrite Z.mod_small in E2a by lia. lia. }
    rewrite Hsmall in H.
    apply IH in H; [exact H | lia].
Qed.

Lemma ParseUint_loop_range (s : string) : forall n0 n,
  ParseUint_loop s n0 = (n, Some ErrRange) -> n = maxUint64.
Proof.
  induction s as [|c rest IH]; intros n0 n H; cbn [ParseUint_loop] in H.
  - discriminate.
  - destruct (digit_of c) as [d|]; [|discriminate].
    destruct (n0 >=? maxUint64 / 10 + 1); [inversion H; reflexivity|].
    cbv zeta in H.
    destruct (((n0 * 10 + d) mod 2 ^ 64 <? n0 * 10)
              || ((n0 * 10 + d) mod 2 ^ 64 >? maxUint64));
      [inversion H; reflexivity|].
    eapply IH; eassumption.
Qed.

(** On a string of digits whose value fits 64 bits the loop returns that
    value and no error. *)
Lemma ParseUint_loop_complete (s : string) : forall n0,
  0 <= n0 ->
  all_digits s = true ->
  decimal s n0 <= maxUint64 ->
  ParseUint_loop s n0 = (decimal s n0, None).
Proof.
  induction s as [|c rest IH]; intros n0 Hn0 Hd Hle;
    cbn [ParseUint_loop all_digits decimal] in *; [reflexivity|].
  destruct (digit_of c) as [d|] eqn:Ed; [|discriminate].
  pose proof (digit_of_range _ _ Ed) as Hdr.
  pose proof (decimal_ge rest (n0 * 10 + d) ltac:(lia)) as Hge.
  change (maxUint64 / 10 + 1) with 1844674407370955162.
  unfold maxUint64 in *.
  change (2 ^ 64) with 18446744073709551616 in *.
  destruct (n0 >=? 1844674407370955162) eqn:E1.
  { rewrite Z.geb_leb in E1. apply Z.leb_le in E1. lia. }
  cbv zeta.
  rewrite (Z.mod_small (n0 * 10 + d)) by lia.
  replace (n0 * 10 + d <? n0 * 10) with false
    by (symmetry; apply Z.ltb_ge; lia).
  replace (n0 * 10 + d >? 18446744073709551616 - 1) with false
    by (symmetry; rewrite Z.gtb_ltb; apply Z.ltb_ge; lia).
  cbn [orb]. apply IH; [lia | assumption | assumption].
Qed.

Lemma ParseUint_ok (s : string) (n : Z) :
  ParseUint s = (n, None) ->
  digits s = true /\ n = decimal s 0 /\ 0 <= n <= maxUint64.
Proof.
  destruct s as [|c rest]; [discriminate|].
  unfold ParseUint, digits. apply ParseUint_loop_ok.
  unfold maxUint64. lia.
Qed.

Lemma ParseUint_range (s : string) (n : Z) :
  ParseUint s = (n, Some ErrRange) -> n = maxUint64.
Proof.
  destruct s as [|c rest]; [discriminate|].
  unfold ParseUint. apply ParseUint_loop_range.
Qed.

Lemma ParseUint_complete (s : string) :
  digits s = true ->
  decimal s 0 <= maxUint64 ->
  ParseUint s = (decimal s 0, None).
Proof.
  destruct s as [|c rest]; [discriminate|].
  unfold ParseUint, digits. apply ParseUint_loop_complete. lia.
Qed.

(** Soundness of [ParseInt]: when it returns no error, its argument is a
    base-10 integer, the result is the integer it denotes, and it fits a
    signed 64-bit integer. *)
Lemma ParseInt_ok (s : string) (n : Z) :
  ParseInt Quote s = (n, None) ->
  is_base10_integer s = true /\ n = int_value s
  /\ - 2 ^ 63 <= n <= 2 ^ 63 - 1.
Proof.
  destruct s as [|c0 rest]; [discriminate|].
  unfold ParseInt, is_base10_integer, int_value.
  set (s0 := String c0 rest).
  destruct (Ascii.eqb c0 "+") eqn:Eplus.
  - apply Ascii.eqb_eq in Eplus. subst c0. cbn [orb Ascii.eqb Bool.eqb andb negb].
    cbv zeta.
    destruct (ParseUint rest) as [un [[|]|]] eqn:EU; try discriminate.
    + apply ParseUint_range in EU. subst un. discriminate.
    + apply ParseUint_ok in EU. destruct EU as (Hd & Hv & Hr).
      destruct (un >=? 2 ^ 63) eqn:E; [discriminate|].
      intros H. inversion H; subst n.
      rewrite Z.geb_leb in E. apply Z.leb_gt in E. repeat split; auto; lia.
  - destruct (Ascii.eqb c0 "-") eqn:Eminus.
    + cbn [orb andb negb]. cbv zeta.
      destruct (ParseUint rest) as [un [[|]|]] eqn:EU; try discriminate.
      * apply ParseUint_range in EU. subst un. discriminate.
      * apply ParseUint_ok in EU. destruct EU as (Hd & Hv & Hr).
        destruct (un >? 2 ^ 63) eqn:E; [discriminate|].
        intros H. inversion H; subst n.
        rewrite Z.gtb_ltb in E. apply Z.ltb_ge in E. repeat split; auto; lia.
    + cbn [orb andb negb]. cbv zeta.
      destruct (ParseUint s0) as [un [[|]|]] eqn:EU; try discriminate.
      * apply ParseUint_range in EU. subst un. discriminate.
      * apply ParseUint_ok in EU. destruct EU as (Hd & Hv & Hr).
        destruct (un >=? 2 ^ 63) eqn:E; [discriminate|].
        intros H. inversion H; subst n.
        rewrite Z.geb_leb in E. apply Z.leb_gt in E. repeat split; auto; lia.
Qed.

(** Completeness: a base-10 integer that fits a signed 64-bit integer is
    parsed to the integer it denotes. *)
Lemma ParseInt_complete (s : string) :
  is_base10_integer s = true ->
  - 2 ^ 63 <= int_value s <= 2 ^ 63 - 1 ->
  ParseInt Quote s = (int_value s, None).
Proof.
  destruct s as [|c0 rest]; [discriminate|].
  unfold ParseInt, is_base10_integer, int_value.
  set (s0 := String c0 rest).
  assert (Hpos : forall t, 0 <= decimal t 0) by (intros t; apply decimal_ge; lia).
  destruct (Ascii.eqb c0 "+") eqn:Eplus.
  - cbn [orb andb negb]. intros Hd Hr.
    apply Ascii.eqb_eq in Eplus. subst c0. cbn [Ascii.eqb Bool.eqb andb negb].
    rewrite ParseUint_complete by (auto; unfold maxUint64; lia).
    replace (decimal rest 0 >=? 2 ^ 63) with false
      by (symmetry; rewrite Z.geb_leb; apply Z.leb_gt; lia).
    reflexivity.
  - destruct (Ascii.eqb c0 "-") eqn:Eminus; cbn [orb andb negb];
      intros Hd Hr; cbv zeta.
    + pose proof (Hpos rest).
      rewrite ParseUint_complete by (auto; unfold maxUint64; lia).
      replace (decimal rest 0 >? 2 ^ 63) with false
        by (symmetry; rewrite Z.gtb_ltb; apply Z.ltb_ge; lia).
      reflexivity.
    + rewrite ParseUint_complete by (auto; unfold maxUint64; lia).
      replace (decimal s0 0 >=? 2 ^ 63) with false
        by (symmetry; rewrite Z.geb_leb; apply Z.leb_gt; lia).
      reflexivity.
Qed.


End ParseInt_facts.

(** ** Derivation of the configuration *)
Section Derivation_facts.
Import providers plugin.
Variable Quote : string -> string.
Variable Validate : DiskConfig.t -> option error.

Local Abbreviation createDiskConfig_range :=
  (plugin.createDiskConfig_range Quote).
Local Abbreviation createDiskConfig :=
  (plugin.createDiskConfig Quote Validate).
Local Abbreviation config_error := (plugin.config_error Quote).
Local Abbreviation entry_ok := (plugin.entry_ok Quote).

Ltac key_cases key :=
  destruct (key =? "Name") eqn:EName;
  [| destruct (key =? "Type") eqn:EType;
     [| destruct (key =? "SizeGb") eqn:ESizeGb;
        [| destruct (key =? "SourceSnapshot") eqn:ESnapshot;
           [| destruct (key =? "SourceImage") eqn:EImage ]]]].

Lemma config_error_cons kv options e :
  config_error options e -> config_error (kv :: options) e.
Proof.
  intros [(key & Hin & Hk & He) | (value & Hin & Hp)]; [left | right].
  - exists key. simpl. auto.
  - exists value. simpl. auto.
Qed.

Lemma createDiskConfig_range_inr options : forall config e,
  createDiskConfig_range config options = inr e -> config_error options e.
Proof.
  induction options as [|[key value] rest IH]; intros config e H;
    cbn [plugin.createDiskConfig_range] in H; [discriminate|].
  key_cases key; try (apply config_error_cons; eapply IH; eassumption).
  - destruct (strconv.ParseInt Quote value) as [n [err|]] eqn:EP.
    + inversion H; subst. right. exists value. split; [|rewrite EP; reflexivity].
      apply String.eqb_eq in ESizeGb. subst key. left. reflexivity.
    + apply config_error_cons. eapply IH; eassumption.
  - inversion H; subst. left. exists key. split; [left; reflexivity|].
    split; [|reflexivity].
    unfold is_option_key. rewrite EName, EType, ESizeGb, ESnapshot, EImage.
    reflexivity.
Qed.

Lemma createDiskConfig_range_inl options : forall config config',
  createDiskConfig_range config options = inl config' ->
  Forall entry_ok options.
Proof.
  induction options as [|[key value] rest IH]; intros config config' H;
    cbn [plugin.createDiskConfig_range] in H; [constructor|].
  assert (Hne : forall k, (key =? k) = true -> k <> "SizeGb" ->
                          key = "SizeGb" -> False).
  { intros k Hk Hd Hs. apply String.eqb_eq in Hk. congruence. }
  key_cases key;
    try (constructor; [| eapply IH; eassumption]; split;
         [ unfold is_option_key; cbn [fst];
           rewrite ?EName, ?EType, ?ESizeGb, ?ESnapshot, ?EImage; reflexivity
         | cbn [fst snd]; intros Hs; exfalso;
           first [ apply (Hne _ EName) | apply (Hne _ EType)
                 | apply (Hne _ ESnapshot) | apply (Hne _ EImage) ];
           [discriminate | exact Hs] ]).
  - destruct (strconv.ParseInt Quote value) as [n [err|]] eqn:EP;
      [discriminate|].
    constructor; [| eapply IH; eassumption]. split.
    + unfold is_option_key. cbn [fst]. rewrite EName, EType, ESizeGb.
      reflexivity.
    + cbn [fst snd]. intros _. rewrite EP. reflexivity.
  - discriminate.
Qed.

(** An entry the loop does not pass makes the loop, and the derivation,
    fail with a configuration error. *)
Lemma createDiskConfig_range_fails options config kv :
  In kv options -> ~ entry_ok kv ->
  exists e, createDiskConfig_range config options = inr e
            /\ config_error options e.
Proof.
  intros Hin Hbad.
  destruct (createDiskConfig_range config options) as [config'|e] eqn:E.
  - apply createDiskConfig_range_inl in E.
    rewrite Forall_forall in E. elim Hbad. auto.
  - exists e. split; [reflexivity|].
    eapply createDiskConfig_range_inr; eassumption.
Qed.

Lemma createDiskConfig_fails r kv :
  In kv (volume.Request.Options r) -> ~ entry_ok kv ->
  exists e, createDiskConfig r = inr e
            /\ config_error (volume.Request.Options r) e.
Proof.
  intros Hin Hbad. unfold plugin.createDiskConfig.
  edestruct createDiskConfig_range_fails as (e & He & Hc); try eassumption.
  rewrite He. exists e. auto.
Qed.

Lemma unknown_key_not_ok options key :
  In key (map fst options) -> is_option_key key = false ->
  exists kv, In kv options /\ ~ entry_ok kv.
Proof.
  intros Hin Hk. apply in_map_iff in Hin. destruct Hin as (kv & Hf & Hin).
  exists kv. split; [assumption|]. intros [Hok _]. congruence.
Qed.


(** The name the loop leaves in the configuration: the value of the Name
    option when the options have one, the name it started from otherwise. *)
Lemma createDiskConfig_range_Name options : forall config config',
  NoDup (map fst options) ->
  createDiskConfig_range config options = inl config' ->
  (forall value, In ("Name", value) options ->
                 DiskConfig.Name config' = value)
  /\ (~ In "Name" (map fst options) ->
      DiskConfig.Name config' = DiskConfig.Name config).
Proof.
  induction options as [|[key value] rest IH]; intros config config' Hnd H;
    cbn [plugin.createDiskConfig_range] in H.
  - inversion H; subst. split; [intros value []| reflexivity].
  - cbn [map fst] in Hnd. inversion Hnd as [|? ? Hnotin Hnd']; subst.
    assert (Hother : forall config1,
      key <> "Name" ->
      DiskConfig.Name config1 = DiskConfig.Name config ->
      createDiskConfig_range config1 rest = inl config' ->
      (forall value0, In ("Name", value0) ((key, value) :: rest) ->
                      DiskConfig.Name config' = value0)
      /\ (~ In "Name" (map fst ((key, value) :: rest)) ->
          DiskConfig.Name config' = DiskConfig.Name config)).
    { intros config1 Hk Hn H1.
      destruct (IH _ _ Hnd' H1) as [IH1 IH2]. split.
      - intros value0 [Heq|Hin]; [inversion Heq; congruence | auto].
      - intros Hno. rewrite <- Hn. apply IH2. intros Hin. apply Hno.
        right. exact Hin. }
    key_cases key;
      try (eapply Hother;
           [apply String.eqb_neq; assumption | | eassumption]; reflexivity).
    + apply String.eqb_eq in EName. subst key.
      destruct (IH _ _ Hnd' H) as [_ IH2]. specialize (IH2 Hnotin).
      cbn [DiskConfig.set_Name DiskConfig.Name] in IH2. split.
      * intros value0 [Heq|Hin]; [inversion Heq; congruence|].
        elim Hnotin. apply in_map_iff. exists ("Name", value0). auto.
      * intros Hno. elim Hno. left. reflexivity.
    + destruct (strconv.ParseInt Quote value) as [n [err|]] eqn:EP;
        [discriminate|].
      eapply Hother; [apply String.eqb_neq; assumption | | eassumption].
      reflexivity.
    + discriminate.
Qed.


(** *** The order of the visit

    The language leaves open the order in which [range] visits a map. With
    pairwise distinct keys the order decides neither whether the derivation
    succeeds nor the configuration derived, only which error is returned
    when several entries are at fault. *)

Lemma createDiskConfig_range_app options1 : forall options2 config,
  createDiskConfig_range config (options1 ++ options2)%list
  = match createDiskConfig_range config options1 with
    | inl config1 => createDiskConfig_range config1 options2
    | inr e => inr e
    end.
Proof.
  induction options1 as [|[key value] rest IH]; intros options2 config;
    cbn [app plugin.createDiskConfig_range]; [reflexivity|].
  key_cases key; try apply IH; [|reflexivity].
  destruct (strconv.ParseInt Quote value) as [n [err|]];
    [reflexivity | apply IH].
Qed.

Lemma createDiskConfig_range_swap key1 value1 key2 value2 rest config :
  key1 <> key2 ->
  forall config',
    createDiskConfig_range config ((key1, value1) :: (key2, value2) :: rest)
    = inl config' ->
    createDiskConfig_range config ((key2, value2) :: (key1, value1) :: rest)
    = inl config'.
Proof.
  intros Hne config'. cbn [plugin.createDiskConfig_range].
  assert (Hsame : forall k, (key1 =? k) = true -> (key2 =? k) = true -> False).
  { intros k H1 H2. apply String.eqb_eq in H1, H2. congruence. }
  destruct (key1 =? "Name") eqn:E1n;
    [| destruct (key1 =? "Type") eqn:E1t;
       [| destruct (key1 =? "SizeGb") eqn:E1s;
          [| destruct (key1 =? "SourceSnapshot") eqn:E1p;
             [| destruct (key1 =? "SourceImage") eqn:E1i;
                [| discriminate ]]]]];
    (destruct (key2 =? "Name") eqn:E2n;
     [| destruct (key2 =? "Type") eqn:E2t;
        [| destruct (key2 =? "SizeGb") eqn:E2s;
           [| destruct (key2 =? "SourceSnapshot") eqn:E2p;
              [| destruct (key2 =? "SourceImage") eqn:E2i ]]]]);
    try (exfalso; eapply Hsame; eassumption);
    try (destruct (strconv.ParseInt Quote value1) as [n1 [err1|]]);
    try (destruct (strconv.ParseInt Quote value2) as [n2 [err2|]]);
    try discriminate; intros H; exact H.
Qed.

Lemma createDiskConfig_range_Permutation options options' :
  Permutation options options' ->
  NoDup (map fst options) ->
  forall config config',
    createDiskConfig_range config options = inl config' ->
    createDiskConfig_range config options' = inl config'.
Proof.
  induction 1 as [| [key value] l l' Hp IH | [k2 v2] [k1 v1] l
                 | l l' l'' Hp1 IH1 Hp2 IH2]; intros Hnd config config' H.
  - exact H.
  - cbn [map fst] in Hnd. inversion Hnd as [|? ? _ Hnd']; subst.
    change ((key, value) :: l') with ([(key, value)] ++ l')%list.
    change ((key, value) :: l) with ([(key, value)] ++ l)%list in H.
    rewrite createDiskConfig_range_app in *.
    destruct (createDiskConfig_range config [(key, value)]);
      [apply IH; assumption | discriminate].
  - cbn [map fst] in Hnd. inversion Hnd as [|? ? Hnotin _]; subst.
    apply createDiskConfig_range_swap; [|exact H].
    intros Heq. apply Hnotin. left. symmetry. exact Heq.
  - apply IH2; [|apply IH1; assumption].
    eapply Permutation_NoDup; [|exact Hnd]. apply Permutation_map. exact Hp1.
Qed.

(** *** The derivation in closed form *)

Local Abbreviation entry_fault := (plugin.entry_fault Quote).

Lemma lookup_None key options :
  ~ In key (map fst options) -> lookup key options = None.
Proof.
  induction options as [|[k v] rest IH]; intros Hno; cbn [lookup];
    [reflexivity|].
  destruct (k =? key) eqn:E.
  - apply String.eqb_eq in E. elim Hno. left. exact E.
  - apply IH. intros Hin. apply Hno. right. exact Hin.
Qed.

Lemma entry_fault_None kv : entry_fault kv = None <-> entry_ok kv.
Proof.
  unfold plugin.entry_fault, plugin.entry_ok.
  destruct (is_option_key (fst kv)); [|split; [discriminate | intros [H _]; discriminate]].
  destruct (fst kv =? "SizeGb") eqn:E.
  - apply String.eqb_eq in E. split; [intros H; split; auto | intros [_ H]; auto].
  - apply String.eqb_neq in E. split; [intros _; split; [reflexivity|] | reflexivity].
    intros Hs. elim (E Hs).
Qed.

Lemma createDiskConfig_range_with_options options : forall config config',
  NoDup (map fst options) ->
  createDiskConfig_range config options = inl config' ->
  config' = with_options config options.
Proof.
  induction options as [|[key value] rest IH]; intros config config' Hnd H;
    cbn [plugin.createDiskConfig_range] in H.
  - inversion H; subst. destruct config'; reflexivity.
  - cbn [map fst] in Hnd. inversion Hnd as [|? ? Hnotin Hnd']; subst.
    pose proof (lookup_None key rest Hnotin) as Hl.
    key_cases key;
      try (destruct (strconv.ParseInt Quote value) as [n [err|]] eqn:EP;
           [discriminate|]; apply (ParseInt_ok Quote) in EP;
           destruct EP as (_ & En & _));
      try discriminate;
      repeat match goal with
             | E : (key =? _) = true |- _ =>
                 apply String.eqb_eq in E; subst key
             end;
      rewrite (IH _ _ Hnd' H); unfold with_options; cbn [lookup];
      rewrite ?EName, ?EType, ?ESizeGb, ?ESnapshot, ?EImage;
      cbn [String.eqb Ascii.eqb Bool.eqb];
      rewrite ?Hl; try rewrite <- En; reflexivity.
Qed.

Lemma createDiskConfig_range_passes options : forall config,
  Forall entry_ok options ->
  exists config', createDiskConfig_range config options = inl config'.
Proof.
  induction options as [|[key value] rest IH]; intros config Hok;
    cbn [plugin.createDiskConfig_range]; [eexists; reflexivity|].
  inversion Hok as [|? ? [Hkey Hsize] Hrest]; subst.
  cbn [fst snd] in Hkey, Hsize. unfold is_option_key in Hkey.
  key_cases key; try (apply IH; assumption).
  - apply String.eqb_eq in ESizeGb. specialize (Hsize ESizeGb).
    destruct (strconv.ParseInt Quote value) as [n [err|]];
      [discriminate | apply IH; assumption].
  - discriminate Hkey.
Qed.

Lemma createDiskConfig_range_at_fault kv : forall config e,
  entry_fault kv = Some e ->
  forall post, createDiskConfig_range config (kv :: post) = inr e.
Proof.
  destruct kv as [key value]. intros config e Hf post.
  unfold plugin.entry_fault, is_option_key in Hf. cbn [fst snd] in Hf.
  cbn [plugin.createDiskConfig_range].
  key_cases key;
    repeat match goal with
           | E : (key =? _) = true |- _ => apply String.eqb_eq in E; subst key
           end;
    cbn [orb String.eqb Ascii.eqb Bool.eqb] in Hf; try discriminate.
  - destruct (strconv.ParseInt Quote value) as [n [err|]];
      cbn [snd] in Hf; [inversion Hf; reflexivity | discriminate].
  - inversion Hf. reflexivity.
Qed.

Lemma createDiskConfig_range_first_fault pre kv post config e :
  Forall entry_ok pre ->
  entry_fault kv = Some e ->
  createDiskConfig_range config (pre ++ kv :: post)%list = inr e.
Proof.
  intros Hpre Hf. rewrite createDiskConfig_range_app.
  destruct (createDiskConfig_range_passes pre config Hpre) as (c1 & ->).
  apply createDiskConfig_range_at_fault. exact Hf.
Qed.

Lemma createDiskConfig_range_inr_split options : forall config e,
  createDiskConfig_range config options = inr e ->
  exists pre kv post,
    options = (pre ++ kv :: post)%list
    /\ Forall entry_ok pre /\ entry_fault kv = Some e.
Proof.
  induction options as [|kv rest IH]; intros config e H;
    [discriminate|].
  destruct (entry_fault kv) as [e0|] eqn:Ef.
  - rewrite (createDiskConfig_range_at_fault kv config e0 Ef rest) in H.
    inversion H; subst. exists [], kv, rest. auto.
  - apply entry_fault_None in Ef.
    change (kv :: rest) with ([kv] ++ rest)%list in H.
    rewrite createDiskConfig_range_app in H.
    destruct (createDiskConfig_range_passes [kv] config) as (c1 & Hc1);
      [constructor; [assumption | constructor]|].
    rewrite Hc1 in H. apply IH in H.
    destruct H as (pre & kv' & post & -> & Hpre & Hf).
    exists (kv :: pre), kv', post. repeat split; auto.
Qed.

(** X1. With pairwise distinct option keys, the derivation succeeds exactly
    when every entry has a known key, the value of SizeGb parses, and
    validation accepts the result; the configuration is then the one the
    request asks for: its name unless the Name option overrides it, the
    type and the two sources from their options or empty, the size the
    integer its option denotes or zero. *)
Theorem X1_createDiskConfig_succeeds_iff
  (r : volume.Request.t) (config : DiskConfig.t) :
  NoDup (volume.Request.keys r) ->
  createDiskConfig r = inl config
  <-> (Forall entry_ok (volume.Request.Options r)
       /\ config = config_of r
       /\ Validate config = None).
Proof.
  intros Hnd. unfold plugin.createDiskConfig, config_of. split.
  - intros H.
    destruct (createDiskConfig_range _ (volume.Request.Options r))
      as [config0|e] eqn:ER; [|discriminate].
    destruct (Validate config0) eqn:EV; inversion H; subst config0.
    split; [eapply createDiskConfig_range_inl; eassumption|].
    split; [|exact EV].
    apply createDiskConfig_range_with_options; assumption.
  - intros (Hok & Hc & HV).
    edestruct createDiskConfig_range_passes as (config0 & ER);
      [exact Hok|]. rewrite ER.
    pose proof (createDiskConfig_range_with_options _ _ _ Hnd ER) as Hw.
    rewrite <- Hc in Hw. subst config0. rewrite HV. reflexivity.
Qed.

(** X2. The error of a failed derivation is that of the first entry at
    fault in the order of the visit: whatever follows it is not looked at.
    And a derivation fails for no other reason than an entry at fault or,
    when every entry passes, the error of validation. *)
Theorem X2_createDiskConfig_first_fault (r : volume.Request.t) (e : error) :
  (forall pre kv post,
      volume.Request.Options r = (pre ++ kv :: post)%list ->
      Forall entry_ok pre ->
      entry_fault kv = Some e ->
      createDiskConfig r = inr e)
  /\ (NoDup (volume.Request.keys r) ->
      createDiskConfig r = inr e ->
      (exists pre kv post,
          volume.Request.Options r = (pre ++ kv :: post)%list
          /\ Forall entry_ok pre /\ entry_fault kv = Some e)
      \/ (Forall entry_ok (volume.Request.Options r)
          /\ Validate (config_of r) = Some e)).
Proof.
  unfold plugin.createDiskConfig, config_of. split.
  - intros pre kv post -> Hpre Hf.
    rewrite (createDiskConfig_range_first_fault pre kv post _ e Hpre Hf).
    reflexivity.
  - intros Hnd H.
    destruct (createDiskConfig_range _ (volume.Request.Options r))
      as [config0|e0] eqn:ER.
    + right. split; [eapply createDiskConfig_range_inl; eassumption|].
      rewrite <- (createDiskConfig_range_with_options _ _ _ Hnd ER).
      destruct (Validate config0); inversion H; reflexivity.
    + left. inversion H; subst e0.
      eapply createDiskConfig_range_inr_split; eassumption.
Qed.

(** X3. A request is derived only if the value of its SizeGb option is an
    optionally signed string of decimal digits that denotes an integer of
    64 bits, negative ones included; and a request with such a value as its
    only option is derived, with that integer as its size, when validation
    accepts it. *)
Theorem X3_SizeGb_accepted_range :
  (forall (r : volume.Request.t) config value,
      In ("SizeGb", value) (volume.Request.Options r) ->
      createDiskConfig r = inl config ->
      strconv.is_base10_integer value = true
      /\ (- 2 ^ 63 <= strconv.int_value value <= 2 ^ 63 - 1)%Z)
  /\ (forall name value,
        strconv.is_base10_integer value = true ->
        (- 2 ^ 63 <= strconv.int_value value <= 2 ^ 63 - 1)%Z ->
        let config :=
          {| DiskConfig.Name := name; DiskConfig.Type_ := "";
             DiskConfig.SizeGb := strconv.int_value value;
             DiskConfig.SourceSnapshot := ""; DiskConfig.SourceImage := "" |} in
        Validate config = None ->
        createDiskConfig
          {| volume.Request.Name := name;
             volume.Request.Options := [("SizeGb", value)] |}
        = inl config).
Proof.
  split.
  - intros r config value Hin H. unfold plugin.createDiskConfig in H.
    destruct (createDiskConfig_range _ (volume.Request.Options r))
      as [config0|e0] eqn:ER; [|discriminate].
    apply createDiskConfig_range_inl in ER. rewrite Forall_forall in ER.
    destruct (ER _ Hin) as [_ Hp]. specialize (Hp eq_refl). cbn [snd] in Hp.
    destruct (strconv.ParseInt Quote value) as [n oe] eqn:EP.
    cbn [snd] in Hp. subst oe.
    apply (ParseInt_ok Quote) in EP. destruct EP as (Hb & -> & Hr). auto.
  - intros name value Hb Hr config HV. unfold plugin.createDiskConfig.
    cbn [volume.Request.Name volume.Request.Options
         plugin.createDiskConfig_range String.eqb Ascii.eqb Bool.eqb].
    rewrite (ParseInt_complete Quote value Hb Hr).
    cbn [plugin.createDiskConfig_range DiskConfig.set_SizeGb DiskConfig.Name
         DiskConfig.Type_ DiskConfig.SourceSnapshot DiskConfig.SourceImage].
    change (DiskConfig.set_SizeGb _ (strconv.int_value value)) with config.
    rewrite HV. reflexivity.
Qed.

End Derivation_facts.

(** X4. A request with its options visited in another order derives the
    same configuration, and fails when the other fails. *)
Lemma createDiskConfig_order (Quote : string -> string)
  (Validate : providers.DiskConfig.t -> option error)
  (name : string) (options options' : list (string * string)) :
  Permutation options options' ->
  NoDup (map fst options) ->
  (forall config,
      plugin.createDiskConfig Quote Validate
        {| volume.Request.Name := name; volume.Request.Options := options |}
      = inl config ->
      plugin.createDiskConfig Quote Validate
        {| volume.Request.Name := name; volume.Request.Options := options' |}
      = inl config)
  /\ (forall e,
        plugin.createDiskConfig Quote Validate
          {| volume.Request.Name := name; volume.Request.Options := options |}
        = inr e ->
        exists e',
          plugin.createDiskConfig Quote Validate
            {| volume.Request.Name := name;
               volume.Request.Options := options' |}
          = inr e').
Proof.
  intros Hp Hnd.
  assert (Hnd' : NoDup (map fst options')).
  { eapply Permutation_NoDup; [|exact Hnd]. apply Permutation_map. exact Hp. }
  assert (Hto : forall o1 o2 config,
             Permutation o1 o2 -> NoDup (map fst o1) ->
             plugin.createDiskConfig Quote Validate
               {| volume.Request.Name := name; volume.Request.Options := o1 |}
             = inl config ->
             plugin.createDiskConfig Quote Validate
               {| volume.Request.Name := name; volume.Request.Options := o2 |}
             = inl config).
  { intros o1 o2 config Hp12 Hnd1. unfold plugin.createDiskConfig.
    cbn [volume.Request.Name volume.Request.Options].
    destruct (plugin.createDiskConfig_range Quote _ o1) as [c1|e1] eqn:E1;
      [|discriminate].
    rewrite (createDiskConfig_range_Permutation Quote _ _ Hp12 Hnd1 _ _ E1).
    trivial. }
  split.
  - intros config. apply Hto; assumption.
  - intros e He.
    destruct (plugin.createDiskConfig Quote Validate
                {| volume.Request.Name := name;
                   volume.Request.Options := options' |})
      as [config'|e'] eqn:E'; [|exists e'; reflexivity].
    apply (Hto options' options) in E';
      [congruence | apply Permutation_sym; exact Hp | exact Hnd'].
Qed.

(** Which error is returned does depend on the order: with an unparsable
    size and an unknown key, the entry visited first decides. *)
Example createDiskConfig_order_of_errors :
  plugin.createDiskConfig scripted.Quote scripted.Validate
    {| volume.Request.Name := "A";
       volume.Request.Options := [("SizeGb", "ten"); ("Bogus", "1")] |}
  = inr (strconv.NumError scripted.Quote "ParseInt" "ten" strconv.ErrSyntax)
  /\ plugin.createDiskConfig scripted.Quote scripted.Validate
       {| volume.Request.Name := "A";
          volume.Request.Options := [("Bogus", "1"); ("SizeGb", "ten")] |}
     = inr (Errorf ("unknown option " ++ scripted.Quote "Bogus")).
Proof. split; reflexivity. Qed.

(** ** The operations *)
Section Operation_facts.
Import providers plugin.
Variable Quote : string -> string.
Variable Validate : DiskConfig.t -> option error.
Variable MountPoint : DiskConfig.t -> string -> string.
Variable Dev : DiskConfig.t -> string.
Variable W : Type.

Local Abbreviation createDiskConfig :=
  (plugin.createDiskConfig Quote Validate).
Local Abbreviation createMountPoint :=
  (plugin.createMountPoint Quote MountPoint W).
Local Abbreviation run := (plugin.run Quote Validate MountPoint Dev W).
Local Abbreviation handle :=
  (plugin.handle Quote Validate MountPoint Dev W).
Local Abbreviation Get_range :=
  (plugin.Get_range Quote Validate MountPoint W).
Local Abbreviation config_error := (plugin.config_error Quote).
Local Abbreviation conflict_error := (plugin.conflict_error Quote).
Local Abbreviation arises := (plugin.arises Quote Validate MountPoint Dev W).

Ltac unfold_ops :=
  unfold plugin.run, plugin.handle, plugin.Create, plugin.List,
    plugin.Capabilities, plugin.Get, plugin.Remove, plugin.Path,
    plugin.Mount, plugin.Unmount, plugin.createMountPoint,
    bind, call, ret in *;
  cbn [world calls app fst snd id] in *.

(** Case analysis on the innermost result the goal branches on: the
    result of a call, an error, a test. *)
Ltac step :=
  match goal with
  | |- context [match ?x with _ => _ end] =>
      lazymatch x with
      | context [match _ with _ => _ end] => fail
      | _ => destruct x eqn:?
      end
  end;
  unfold id in *; cbn [world calls app fst snd] in *.

(** An operation that starts with the derivation stops there when the
    derivation fails: the error in the response, no call made. *)
Lemma run_derivation_fails (v : Volume W) (r : volume.Request.t) (w : W)
  (op : Op) (e : error) :
  derives_first op = true ->
  createDiskConfig r = inr e ->
  run op v r w = (buildReponseError e, []).
Proof.
  intros Hop He. destruct op; try discriminate; unfold_ops; rewrite He;
    reflexivity.
Qed.

Lemma Get_range_derivation_fails (v : Volume W) (r : volume.Request.t)
  (e : error) (disks : list Disk.t) : forall resp,
  createDiskConfig r = inr e ->
  Get_range v r disks resp
  = if listed r disks then buildReponseError e else resp.
Proof.
  induction disks as [|d rest IH]; intros resp He;
    cbn [plugin.Get_range listed existsb]; [reflexivity|].
  destruct (Disk.Name d =? volume.Request.Name r) eqn:En; cbn [negb orb].
  - rewrite He. reflexivity.
  - apply IH. assumption.
Qed.

(** C1, as amended. For Create, Remove, Path, Mount and Unmount, a request
    whose options have a key outside Name, Type, SizeGb, SourceSnapshot and
    SourceImage is answered with a response that carries a configuration
    error (the unknown option error of such a key, or the parse error of a
    SizeGb value) and with no call to the provider or the filesystem. Get
    lists the disks of the provider first and answers with that error only
    when the listing succeeds and lists a disk of the requested name. *)
Theorem C1_unknown_option_rejected_where_derived
  (v : Volume W) (r : volume.Request.t) (w : W) (key : string) :
  In key (volume.Request.keys r) ->
  is_option_key key = false ->
  exists e,
    createDiskConfig r = inr e
    /\ config_error (volume.Request.Options r) e
    /\ (forall op, derives_first op = true ->
                   run op v r w = (buildReponseError e, []))
    /\ (forall disks lerr w',
          DiskProvider.List (p v) w = ((disks, lerr), w') ->
          run OpGet v r w
          = (match lerr with
             | Some le => buildReponseError le
             | None => if listed r disks then buildReponseError e
                       else volume.Response.zero
             end, [(PList, lerr)])).
Proof.
  intros Hin Hk.
  destruct (unknown_key_not_ok Quote _ _ Hin Hk) as (kv & Hkv & Hbad).
  destruct (createDiskConfig_fails Quote Validate r kv Hkv Hbad)
    as (e & He & Hc).
  exists e. repeat split; try assumption.
  - intros op Hop. apply run_derivation_fails; assumption.
  - intros disks lerr w' HL. unfold_ops. rewrite HL.
    destruct lerr as [le|]; cbn [snd]; [reflexivity|].
    rewrite (Get_range_derivation_fails v r e disks _ He). reflexivity.
Qed.

Ltac pick_prefix :=
  solve [ ((exists true) + (exists false));
          ((exists 1%nat) + (exists 2%nat) + (exists 3%nat) + (exists 4%nat)
           + (exists 5%nat));
          split; [lia | reflexivity] ].

Ltac in_cases H :=
  cbn [snd In] in H;
  repeat match type of H with
         | _ \/ _ => destruct H as [H|H]
         | False => destruct H
         | _ = _ => first [discriminate H | inversion H; subst; clear H]
         end.

(** [Hok] says that every error of the trace is a not-exists report of
    Stat; an event of the trace that is not refutes it. *)
Ltac refute_ok Hok :=
  exfalso;
  match type of Hok with
  | forall c e, In (c, Some e) ?l -> _ =>
      match l with
      | context [(?c0, Some ?e0)] =>
          let H1 := fresh in
          let H2 := fresh in
          assert (In (c0, Some e0) l) as H1
            by (cbn [In]; repeat (first [left; reflexivity | right]));
          destruct (Hok _ _ H1) as [H1' H2];
          first [discriminate H1' | congruence]
      end
  end.

(** The trace of Mount, read by itself: a beginning of the sequence of its
    calls, whole when no call fails and the mount point is no obstacle,
    and without Format and Mount when Attach fails. *)
Lemma Mount_trace_order
  (v : Volume W) (r : volume.Request.t) (w : W) (config : DiskConfig.t) :
  createDiskConfig r = inl config ->
  let target := MountPoint config (Root v) in
  let dev := Dev config in
  let resp := fst (run OpMount v r w) in
  let evs := snd (run OpMount v r w) in
  (exists mkdir n,
      (1 <= n)%nat
      /\ map fst evs = firstn n (Mount_calls mkdir config dev target))
  /\ ((forall c e, In (c, Some e) evs ->
                   c = FStat target /\ IsNotExist e = true) ->
      (resp = Response_Mountpoint target
       /\ exists mkdir, map fst evs = Mount_calls mkdir config dev target)
      \/ (resp = buildReponseError (conflict_error target)
          /\ map fst evs = [FStat target]))
  /\ (forall e, In (PAttach config, Some e) evs ->
                never_called is_FFormat evs
                /\ never_called is_FMount evs
                /\ volume.Response.Err resp = Error e
                /\ resp = buildReponseError e).
Proof.
  intros Hc target dev resp evs. subst resp evs.
  unfold_ops. rewrite Hc. fold target dev. unfold Mount_calls, never_called.
  repeat step;
    (split;
     [ once pick_prefix
     | split;
       [ intros Hok;
         first [ left; split;
                 [reflexivity | ((exists true) + (exists false)); reflexivity]
               | right; split; reflexivity
               | refute_ok Hok ]
       | intros ? Hin; in_cases Hin; repeat split ] ]).
Qed.

(** What [createMountPoint] does, by what Stat and MkdirAll return. *)
Lemma createMountPoint_on_Stat (v : Volume W) (config : DiskConfig.t)
  (st : State W) (fi : FileInfo.t) (serr : option error) (w1 : W) :
  let target := MountPoint config (Root v) in
  Filesystem.Stat (fs v) target (world st) = ((fi, serr), w1) ->
  createMountPoint v config st
  = match serr with
    | Some e =>
        if IsNotExist e then
          let (merr, w2) := Filesystem.MkdirAll (fs v) target perm_0755 w1 in
          (merr, {| world := w2;
                    calls := calls st ++ [(FStat target, Some e);
                                          (FMkdirAll target perm_0755, merr)] |})
        else
          (Some e, {| world := w1;
                      calls := calls st ++ [(FStat target, Some e)] |})
    | None =>
        (if FileInfo.IsDir fi then None else Some (conflict_error target),
         {| world := w1; calls := calls st ++ [(FStat target, None)] |})
    end.
Proof.
  intros target HS. unfold plugin.createMountPoint, bind, call, ret.
  fold target. rewrite HS. cbn [snd fst world calls].
  destruct serr as [e|].
  - destruct (IsNotExist e); [|reflexivity]. cbn [world calls].
    destruct (Filesystem.MkdirAll (fs v) target perm_0755 w1) as [merr w2].
    unfold id. rewrite <- app_assoc. reflexivity.
  - destruct (FileInfo.IsDir fi); reflexivity.
Qed.

(** The steps of Mount after the derivation, each on the world the step
    before left: the preparation of the mount point, then Attach, then
    Format, then Mount; the error of a step ends the operation there. *)
Lemma Mount_steps (v : Volume W) (r : volume.Request.t) (w : W)
  (config : DiskConfig.t) (merr : option error) (st1 : State W) :
  createDiskConfig r = inl config ->
  let target := MountPoint config (Root v) in
  let dev := Dev config in
  let st0 := {| world := w; calls := [] |} in
  createMountPoint v config st0 = (merr, st1) ->
  (forall e, merr = Some e ->
             handle OpMount v r st0 = (buildReponseError e, st1))
  /\ (merr = None ->
      forall aerr w2,
        DiskProvider.Attach (p v) config (world st1) = (aerr, w2) ->
        (forall e, aerr = Some e ->
                   handle OpMount v r st0
                   = (buildReponseError e,
                      {| world := w2;
                         calls := calls st1 ++ [(PAttach config, Some e)] |}))
        /\ (aerr = None ->
            forall ferr w3,
              Filesystem.Format (fs v) dev w2 = (ferr, w3) ->
              (forall e, ferr = Some e ->
                         handle OpMount v r st0
                         = (buildReponseError e,
                            {| world := w3;
                               calls := calls st1
                                        ++ [(PAttach config, None);
                                            (FFormat dev, Some e)] |}))
              /\ (ferr = None ->
                  forall merr' w4,
                    Filesystem.Mount (fs v) dev target w3 = (merr', w4) ->
                    handle OpMount v r st0
                    = (match merr' with
                       | Some e => buildReponseError e
                       | None => Response_Mountpoint target
                       end,
                       {| world := w4;
                          calls := calls st1
                                   ++ [(PAttach config, None);
                                       (FFormat dev, None);
                                       (FMount dev target, merr')] |})))).
Proof.
  intros Hc target dev st0 HM.
  assert (Hh : handle OpMount v r st0
               = match merr with
                 | Some e => (buildReponseError e, st1)
                 | None =>
                     bind (call (PAttach config)
                             (DiskProvider.Attach (p v) config) id)
                       (fun err =>
                          match err with
                          | Some err => ret (buildReponseError err)
                          | None =>
                     bind (call (FFormat dev)
                             (Filesystem.Format (fs v) dev) id)
                       (fun err =>
                          match err with
                          | Some err => ret (buildReponseError err)
                          | None =>
                     bind (call (FMount dev target)
                             (Filesystem.Mount (fs v) dev target) id)
                       (fun err =>
                          match err with
                          | Some err => ret (buildReponseError err)
                          | None => ret (Response_Mountpoint target)
                          end) end) end) st1
                 end).
  { unfold plugin.handle, plugin.Mount. rewrite Hc. unfold bind at 1.
    fold createMountPoint. rewrite HM. destruct merr; reflexivity. }
  rewrite Hh. unfold bind, call, ret, id. split.
  - intros e ->. reflexivity.
  - intros -> aerr w2 HA. rewrite HA. cbn [world calls]. split.
    + intros e ->. reflexivity.
    + intros -> ferr w3 HF. cbn [world calls]. rewrite HF.
      cbn [world calls]. split.
      * intros e ->. rewrite <- app_assoc. reflexivity.
      * intros -> merr' w4 HMn. cbn [world calls]. rewrite HMn.
        cbn [world calls]. rewrite <- !app_assoc.
        destruct merr'; reflexivity.
Qed.

(** C2. Once the configuration is derived, Mount prepares the mount
    point first (Stat, and MkdirAll when Stat reports that the path does
    not exist), then calls Attach, then Format, then Mount, each on the
    world the call before left; the error of a step ends the operation
    with the response built from it. In particular, when Attach returns an
    error, Format and Mount are not called and the response carries the
    text of that error. *)
Theorem C2_Mount_call_order
  (v : Volume W) (r : volume.Request.t) (w : W) (config : DiskConfig.t) :
  createDiskConfig r = inl config ->
  let target := MountPoint config (Root v) in
  let dev := Dev config in
  let st0 := {| world := w; calls := [] |} in
  let resp := fst (run OpMount v r w) in
  let evs := snd (run OpMount v r w) in
  (* the preparation of the mount point, by what Stat and MkdirAll return *)
  (forall fi serr w1,
      Filesystem.Stat (fs v) target w = ((fi, serr), w1) ->
      createMountPoint v config st0
      = match serr with
        | Some e =>
            if IsNotExist e then
              let (merr, w2) :=
                Filesystem.MkdirAll (fs v) target perm_0755 w1 in
              (merr, {| world := w2;
                        calls := [(FStat target, Some e);
                                  (FMkdirAll target perm_0755, merr)] |})
            else (Some e, {| world := w1; calls := [(FStat target, Some e)] |})
        | None =>
            (if FileInfo.IsDir fi then None
             else Some (conflict_error target),
             {| world := w1; calls := [(FStat target, None)] |})
        end)
  (* then Attach, Format and Mount, by what each returns *)
  /\ (forall merr st1,
        createMountPoint v config st0 = (merr, st1) ->
        (forall e, merr = Some e ->
                   handle OpMount v r st0 = (buildReponseError e, st1))
        /\ (merr = None ->
            forall aerr w2,
              DiskProvider.Attach (p v) config (world st1) = (aerr, w2) ->
              (forall e, aerr = Some e ->
                         handle OpMount v r st0
                         = (buildReponseError e,
                            {| world := w2;
                               calls := calls st1
                                        ++ [(PAttach config, Some e)] |}))
              /\ (aerr = None ->
                  forall ferr w3,
                    Filesystem.Format (fs v) dev w2 = (ferr, w3) ->
                    (forall e, ferr = Some e ->
                               handle OpMount v r st0
                               = (buildReponseError e,
                                  {| world := w3;
                                     calls := calls st1
                                              ++ [(PAttach config, None);
                                                  (FFormat dev, Some e)] |}))
                    /\ (ferr = None ->
                        forall merr' w4,
                          Filesystem.Mount (fs v) dev target w3
                          = (merr', w4) ->
                          handle OpMount v r st0
                          = (match merr' with
                             | Some e => buildReponseError e
                             | None => Response_Mountpoint target
                             end,
                             {| world := w4;
                                calls := calls st1
                                         ++ [(PAttach config, None);
                                             (FFormat dev, None);
                                             (FMount dev target, merr')] |})))))
  (* and the trace by itself *)
  /\ (exists mkdir n,
        (1 <= n)%nat
        /\ map fst evs = firstn n (Mount_calls mkdir config dev target))
  /\ ((forall c e, In (c, Some e) evs ->
                   c = FStat target /\ IsNotExist e = true) ->
      (resp = Response_Mountpoint target
       /\ exists mkdir, map fst evs = Mount_calls mkdir config dev target)
      \/ (resp = buildReponseError (conflict_error target)
          /\ map fst evs = [FStat target]))
  /\ (forall e, In (PAttach config, Some e) evs ->
                never_called is_FFormat evs
                /\ never_called is_FMount evs
                /\ volume.Response.Err resp = Error e
                /\ resp = buildReponseError e).
Proof.
  intros Hc target dev st0 resp evs. split; [|split].
  - intros fi serr w1 HS.
    exact (createMountPoint_on_Stat v config st0 fi serr w1 HS).
  - intros merr st1 HM. exact (Mount_steps v r w config merr st1 Hc HM).
  - exact (Mount_trace_order v r w config Hc).
Qed.

(** The trace of Unmount, read by itself. *)
Lemma Unmount_trace_order
  (v : Volume W) (r : volume.Request.t) (w : W) (config : DiskConfig.t) :
  createDiskConfig r = inl config ->
  let target := MountPoint config (Root v) in
  let resp := fst (run OpUnmount v r w) in
  let evs := snd (run OpUnmount v r w) in
  (exists n, (1 <= n)%nat
             /\ map fst evs = firstn n [FUnmount target; PDetach config])
  /\ ((forall c e, ~ In (c, Some e) evs) ->
      resp = volume.Response.zero
      /\ map fst evs = [FUnmount target; PDetach config])
  /\ (forall e, In (FUnmount target, Some e) evs ->
                never_called is_PDetach evs
                /\ never_called is_provider_call evs
                /\ volume.Response.Err resp = Error e
                /\ resp = buildReponseError e).
Proof.
  intros Hc target resp evs. subst resp evs.
  unfold_ops. rewrite Hc. fold target. unfold never_called.
  repeat step;
    (split;
     [ once (((exists 1%nat) + (exists 2%nat)); split; [lia | reflexivity])
     | split;
       [ intros Hok;
         first [ split; reflexivity
               | exfalso; eapply Hok; left; reflexivity
               | exfalso; eapply Hok; right; left; reflexivity ]
       | intros ? Hin; in_cases Hin; repeat split ] ]).
Qed.

(** The steps of Unmount after the derivation: the filesystem's Unmount on
    the world of the request, then the provider's Detach on the world
    Unmount left. *)
Lemma Unmount_steps (v : Volume W) (r : volume.Request.t) (w : W)
  (config : DiskConfig.t) (uerr : option error) (w1 : W) :
  createDiskConfig r = inl config ->
  let target := MountPoint config (Root v) in
  let st0 := {| world := w; calls := [] |} in
  Filesystem.Unmount (fs v) target w = (uerr, w1) ->
  (forall e, uerr = Some e ->
             handle OpUnmount v r st0
             = (buildReponseError e,
                {| world := w1; calls := [(FUnmount target, Some e)] |}))
  /\ (uerr = None ->
      forall derr w2,
        DiskProvider.Detach (p v) config w1 = (derr, w2) ->
        handle OpUnmount v r st0
        = (match derr with
           | Some e => buildReponseError e
           | None => volume.Response.zero
           end,
           {| world := w2;
              calls := [(FUnmount target, None); (PDetach config, derr)] |})).
Proof.
  intros Hc target st0 HU. subst st0.
  unfold plugin.handle, plugin.Unmount, bind, call, ret, id. rewrite Hc.
  fold target. cbn [world calls app]. rewrite HU. cbn [world calls app].
  split.
  - intros e ->. reflexivity.
  - intros -> derr w2 HD. cbn [world calls app]. rewrite HD.
    destruct derr; reflexivity.
Qed.

(** C3. Once the configuration is derived, Unmount calls the filesystem's
    Unmount on the mount path first, and the provider's Detach second, on
    the world Unmount left; when Unmount returns an error, Detach is not
    called and the response carries the text of that error, and otherwise
    the response is that of Detach. *)
Theorem C3_Unmount_before_Detach
  (v : Volume W) (r : volume.Request.t) (w : W) (config : DiskConfig.t) :
  createDiskConfig r = inl config ->
  let target := MountPoint config (Root v) in
  let st0 := {| world := w; calls := [] |} in
  let resp := fst (run OpUnmount v r w) in
  let evs := snd (run OpUnmount v r w) in
  (* the two calls, by what each returns *)
  (forall uerr w1,
      Filesystem.Unmount (fs v) target w = (uerr, w1) ->
      (forall e, uerr = Some e ->
                 handle OpUnmount v r st0
                 = (buildReponseError e,
                    {| world := w1; calls := [(FUnmount target, Some e)] |}))
      /\ (uerr = None ->
          forall derr w2,
            DiskProvider.Detach (p v) config w1 = (derr, w2) ->
            handle OpUnmount v r st0
            = (match derr with
               | Some e => buildReponseError e
               | None => volume.Response.zero
               end,
               {| world := w2;
                  calls := [(FUnmount target, None);
                            (PDetach config, derr)] |})))
  (* and the trace by itself *)
  /\ (exists n, (1 <= n)%nat
                /\ map fst evs = firstn n [FUnmount target; PDetach config])
  /\ ((forall c e, ~ In (c, Some e) evs) ->
      resp = volume.Response.zero
      /\ map fst evs = [FUnmount target; PDetach config])
  /\ (forall e, In (FUnmount target, Some e) evs ->
                never_called is_PDetach evs
                /\ never_called is_provider_call evs
                /\ volume.Response.Err resp = Error e
                /\ resp = buildReponseError e).
Proof.
  intros Hc target st0 resp evs. split.
  - intros uerr w1 HU. exact (Unmount_steps v r w config uerr w1 Hc HU).
  - exact (Unmount_trace_order v r w config Hc).
Qed.

(** The loop of [List] appends the ready disks to the volumes. *)
Lemma List_range_spec (disks : list Disk.t) : forall resp,
  List_range disks resp
  = {| volume.Response.Mountpoint := volume.Response.Mountpoint resp;
       volume.Response.Err := volume.Response.Err resp;
       volume.Response.Volumes :=
         volume.Response.Volumes resp
         ++ map volume_named (ready_names disks);
       volume.Response.Volume := volume.Response.Volume resp;
       volume.Response.Capabilities := volume.Response.Capabilities resp |}.
Proof.
  unfold ready_names.
  induction disks as [|d rest IH]; intros resp; cbn [List_range filter map].
  - rewrite app_nil_r. destruct resp; reflexivity.
  - destruct (Disk.Status d =? "READY"); cbn [negb].
    + rewrite IH. cbn [volume.Response.Mountpoint volume.Response.Err
        volume.Response.Volumes volume.Response.Volume
        volume.Response.Capabilities map].
      rewrite <- app_assoc. reflexivity.
    + apply IH.
Qed.

Lemma run_List (v : Volume W) (r : volume.Request.t) (w : W) :
  forall disks lerr w',
    DiskProvider.List (p v) w = ((disks, lerr), w') ->
    run OpList v r w
    = (match lerr with
       | Some e => buildReponseError e
       | None => Response_Volumes (map volume_named (ready_names disks))
       end, [(PList, lerr)]).
Proof.
  intros disks lerr w' HL. unfold_ops. rewrite HL.
  destruct lerr as [e|]; cbn [snd]; [reflexivity|].
  rewrite List_range_spec. reflexivity.
Qed.

(** C4. When the provider lists its disks, List answers with the names of
    those whose status is READY, in the order of the listing, and with no
    other: a volume is in the answer exactly when a listed disk of that
    name is ready. *)
Theorem C4_List_ready_disks_only
  (v : Volume W) (r : volume.Request.t) (w : W)
  (disks : list Disk.t) (w' : W) :
  DiskProvider.List (p v) w = ((disks, None), w') ->
  let resp := fst (run OpList v r w) in
  map volume.Volume.Name (volume.Response.Volumes resp) = ready_names disks
  /\ resp = Response_Volumes (map volume_named (ready_names disks))
  /\ (forall vol, In vol (volume.Response.Volumes resp) <->
                  exists d, In d disks /\ Disk.Status d = "READY"
                            /\ vol = volume_named (Disk.Name d)).
Proof.
  intros HL resp. subst resp. rewrite (run_List v r w _ _ _ HL).
  cbn [fst Response_Volumes volume.Response.Volumes].
  split; [|split].
  - rewrite map_map. cbn [volume_named volume.Volume.Name]. apply map_id.
  - reflexivity.
  - intros vol. unfold ready_names. rewrite map_map, in_map_iff. split.
    + intros (d & Hv & Hd). apply filter_In in Hd. destruct Hd as [Hd Hs].
      apply String.eqb_eq in Hs. exists d. auto.
    + intros (d & Hd & Hs & Hv). exists d. split; [auto|].
      apply filter_In. split; [assumption|]. apply String.eqb_eq. assumption.
Qed.

Lemma listed_false (r : volume.Request.t) (disks : list Disk.t) :
  (forall d, In d disks -> Disk.Name d <> volume.Request.Name r) ->
  listed r disks = false.
Proof.
  intros Hno. unfold listed.
  destruct (existsb _ disks) eqn:E; [|reflexivity].
  apply existsb_exists in E. destruct E as (d & Hd & Hn).
  apply String.eqb_eq in Hn. elim (Hno d Hd Hn).
Qed.

Lemma listed_true (r : volume.Request.t) (disks : list Disk.t) :
  (exists d, In d disks /\ Disk.Name d = volume.Request.Name r) ->
  listed r disks = true.
Proof.
  intros (d & Hd & Hn). unfold listed. apply existsb_exists.
  exists d. split; [assumption|]. apply String.eqb_eq. assumption.
Qed.

(** With a configuration derived, the loop of [Get] sets the volume at
    a disk of the requested name, and leaves the response as it is when no
    disk has that name. *)
Lemma Get_range_derived (v : Volume W) (r : volume.Request.t)
  (config : DiskConfig.t) (disks : list Disk.t) : forall resp,
  createDiskConfig r = inl config ->
  Get_range v r disks resp
  = if listed r disks then
      {| volume.Response.Mountpoint := volume.Response.Mountpoint resp;
         volume.Response.Err := volume.Response.Err resp;
         volume.Response.Volumes := volume.Response.Volumes resp;
         volume.Response.Volume :=
           Some {| volume.Volume.Name := volume.Request.Name r;
                   volume.Volume.Mountpoint := MountPoint config (Root v) |};
         volume.Response.Capabilities := volume.Response.Capabilities resp |}
    else resp.
Proof.
  induction disks as [|d rest IH]; intros resp Hc;
    cbn [plugin.Get_range listed existsb]; [reflexivity|].
  destruct (Disk.Name d =? volume.Request.Name r) eqn:En; cbn [negb orb].
  - rewrite Hc. rewrite IH by assumption. apply String.eqb_eq in En.
    rewrite En. destruct (listed r rest); reflexivity.
  - apply IH. assumption.
Qed.

(** C5. When the provider lists its disks and none has the name of the
    request, Get answers with the empty response: no volume, no error.
    When a listed disk has that name and the configuration is derived, Get
    answers with that name and the mount path of the configuration. *)
Theorem C5_Get_no_match_is_empty
  (v : Volume W) (r : volume.Request.t) (w : W)
  (disks : list Disk.t) (w' : W) :
  DiskProvider.List (p v) w = ((disks, None), w') ->
  ((forall d, In d disks -> Disk.Name d <> volume.Request.Name r) ->
   run OpGet v r w = (volume.Response.zero, [(PList, None)]))
  /\ (forall config,
        (exists d, In d disks /\ Disk.Name d = volume.Request.Name r) ->
        createDiskConfig r = inl config ->
        run OpGet v r w
        = (Response_Volume (volume.Request.Name r)
             (MountPoint config (Root v)), [(PList, None)])).
Proof.
  intros HL. split.
  - intros Hno. unfold_ops. rewrite HL. cbn [snd].
    destruct (createDiskConfig r) as [config|e] eqn:Hc.
    + rewrite (Get_range_derived v r config disks _ Hc).
      rewrite listed_false by assumption. reflexivity.
    + rewrite (Get_range_derivation_fails v r e disks _ Hc).
      rewrite listed_false by assumption. reflexivity.
  - intros config Hd Hc. unfold_ops. rewrite HL. cbn [snd].
    rewrite (Get_range_derived v r config disks _ Hc).
    rewrite listed_true by assumption. reflexivity.
Qed.

(** C6. The three branches of [createMountPoint] on the result of Stat at
    the mount path: when Stat reports that the path does not exist,
    MkdirAll is called on the path with the permissions 0755 and its result
    is returned; when Stat succeeds and the path is not a directory, the
    conflict error is returned; any other error of Stat is returned as it
    is. (When Stat succeeds on a directory, no error is returned.) And Path,
    at a mount path that is a regular file, answers with the conflict error
    and calls nothing but Stat: no call reaches the provider. *)
Theorem C6_createMountPoint_branches
  (v : Volume W) (config : DiskConfig.t) (st : State W)
  (fi : FileInfo.t) (serr : option error) (w1 : W) :
  let target := MountPoint config (Root v) in
  Filesystem.Stat (fs v) target (world st) = ((fi, serr), w1) ->
  (forall e merr w2,
      serr = Some e -> IsNotExist e = true ->
      Filesystem.MkdirAll (fs v) target perm_0755 w1 = (merr, w2) ->
      createMountPoint v config st
      = (merr, {| world := w2;
                  calls := calls st ++ [(FStat target, Some e);
                                        (FMkdirAll target perm_0755, merr)] |}))
  /\ (serr = None -> FileInfo.IsDir fi = false ->
      createMountPoint v config st
      = (Some (conflict_error target),
         {| world := w1; calls := calls st ++ [(FStat target, None)] |}))
  /\ (forall e,
        serr = Some e -> IsNotExist e = false ->
        createMountPoint v config st
        = (Some e,
           {| world := w1; calls := calls st ++ [(FStat target, Some e)] |}))
  /\ (serr = None -> FileInfo.IsDir fi = true ->
      createMountPoint v config st
      = (None,
         {| world := w1; calls := calls st ++ [(FStat target, None)] |}))
  /\ (forall r,
        createDiskConfig r = inl config ->
        serr = None -> FileInfo.IsDir fi = false ->
        let res := run OpPath v r (world st) in
        res = (buildReponseError (conflict_error target),
               [(FStat target, None)])
        /\ never_called is_provider_call (snd res))
  /\ perm_0755 = 493%N.
Proof.
  intros target HS.
  assert (HP : forall r,
             createDiskConfig r = inl config ->
             serr = None -> FileInfo.IsDir fi = false ->
             run OpPath v r (world st)
             = (buildReponseError (conflict_error target),
                [(FStat target, None)])).
  { intros r Hc -> Hd. subst target. unfold_ops. rewrite Hc.
    cbn [world calls app]. rewrite HS. cbn [snd]. rewrite Hd. reflexivity. }
  unfold plugin.createMountPoint, bind, call, ret.
  fold target. rewrite HS. cbn [snd fst world calls].
  repeat split.
  - intros e merr w2 -> He HM. rewrite He. cbn [world calls]. rewrite HM.
    unfold id. rewrite <- app_assoc. reflexivity.
  - intros -> Hd. rewrite Hd. reflexivity.
  - intros e -> He. rewrite He. reflexivity.
  - intros -> Hd. rewrite Hd. reflexivity.
  - rewrite HP by assumption. reflexivity.
  - rewrite HP by assumption. reflexivity.
Qed.



(** C9. After a successful derivation from a request whose option keys are
    pairwise distinct, the name of the configuration is the value of the
    Name option when the options have one, and the name of the request
    otherwise; and it is not empty, as validation rejects an empty name. *)
Theorem C9_derived_Name
  (r : volume.Request.t) (config : DiskConfig.t) :
  (forall c, Validate c = None -> DiskConfig.Name c <> "") ->
  NoDup (volume.Request.keys r) ->
  createDiskConfig r = inl config ->
  (forall value, In ("Name", value) (volume.Request.Options r) ->
                 DiskConfig.Name config = value)
  /\ (~ In "Name" (volume.Request.keys r) ->
      DiskConfig.Name config = volume.Request.Name r)
  /\ DiskConfig.Name config <> "".
Proof.
  intros HV Hnd Hc. unfold plugin.createDiskConfig in Hc.
  destruct (plugin.createDiskConfig_range Quote _ (volume.Request.Options r))
    as [config0|e] eqn:ER; [|discriminate].
  destruct (Validate config0) eqn:EV; inversion Hc; subst config0.
  destruct (createDiskConfig_range_Name Quote _ _ _ Hnd ER) as [H1 H2].
  split; [exact H1 | split; [exact H2 | apply HV; exact EV]].
Qed.

(** *** Errors and responses *)


Lemma run_Get_derivation_fails (v : Volume W) (r : volume.Request.t) (w : W)
  (e : error) (disks : list Disk.t) (w' : W) :
  DiskProvider.List (p v) w = ((disks, None), w') ->
  listed r disks = true ->
  createDiskConfig r = inr e ->
  run OpGet v r w = (buildReponseError e, [(PList, None)]).
Proof.
  intros HL Hl He. unfold_ops. rewrite HL. cbn [snd].
  rewrite (Get_range_derivation_fails v r e disks _ He), Hl. reflexivity.
Qed.

Lemma run_createMountPoint_fails (v : Volume W) (r : volume.Request.t)
  (w : W) (op : Op) (config : DiskConfig.t) (e : error) (st' : State W) :
  op = OpPath \/ op = OpMount ->
  createDiskConfig r = inl config ->
  createMountPoint v config {| world := w; calls := [] |} = (Some e, st') ->
  run op v r w = (buildReponseError e, calls st').
Proof.
  intros [-> | ->] Hc HM;
    unfold plugin.run, plugin.handle, plugin.Path, plugin.Mount, bind, ret;
    rewrite Hc, HM; reflexivity.
Qed.

(** A call of the provider, or a call of Format, Mount or Unmount, that
    returns an error ends the operation with that error. *)
Lemma run_call_fails (v : Volume W) (r : volume.Request.t) (w : W)
  (op : Op) (c : Call) (e : error) :
  is_step_call c = true ->
  In (c, Some e) (snd (run op v r w)) ->
  fst (run op v r w) = buildReponseError e.
Proof.
  destruct op; unfold_ops;
    try (destruct (createDiskConfig r) as [config|e0] eqn:Hc);
    cbn [world calls app fst snd];
    repeat step; intros Hs Hin; in_cases Hin;
    first [reflexivity | discriminate Hs].
Qed.

Ltac step_in H :=
  match type of H with
  | context [match ?x with _ => _ end] =>
      lazymatch x with
      | context [match _ with _ => _ end] => fail
      | _ => destruct x eqn:?
      end
  end;
  unfold id in H; cbn [world calls app fst snd] in H.





(** C10. List and Capabilities do not read the request: whatever its
    options, List answers with what the listing of the provider yields, its
    error or its ready disks, after that one call, and Capabilities answers
    with the local scope and calls nothing; the answer to a request is the
    answer to any other. *)
Theorem C10_List_Capabilities_ignore_request
  (v : Volume W) (r : volume.Request.t) (w : W) :
  (forall disks lerr w',
      DiskProvider.List (p v) w = ((disks, lerr), w') ->
      run OpList v r w
      = (match lerr with
         | Some e => buildReponseError e
         | None => Response_Volumes (map volume_named (ready_names disks))
         end, [(PList, lerr)]))
  /\ run OpCapabilities v r w = (Response_Capabilities_local, [])
  /\ (forall r', run OpList v r' w = run OpList v r w
                 /\ run OpCapabilities v r' w = run OpCapabilities v r w).
Proof.
  split; [|split].
  - apply run_List.
  - reflexivity.
  - intros r'. split; reflexivity.
Qed.

(** *** What the operations call, and what they answer *)

Local Abbreviation concerns := (plugin.concerns MountPoint Dev).

(** X5. An operation makes only the calls of its own kind, and a bounded
    number of them: Create calls the provider's Create, Remove its Delete,
    List and Get its List, once at most; Path calls Stat and MkdirAll and
    never the provider; Mount never calls Detach, Delete or Unmount, so
    nothing it did is undone when a later step fails; Unmount calls Unmount
    and Detach; Capabilities calls nothing. *)
Theorem X5_calls_of_an_operation
  (v : Volume W) (op : Op) (r : volume.Request.t) (w : W) :
  (length (snd (run op v r w)) <= max_calls op)%nat
  /\ forallb (fun ev => op_allows op (fst ev)) (snd (run op v r w)) = true.
Proof.
  destruct op; unfold_ops;
    try (destruct (createDiskConfig r) as [config|e0] eqn:Hc);
    cbn [world calls app fst snd];
    repeat step; split; cbn; first [lia | reflexivity].
Qed.

(** X6. Every call an operation makes for a request is made on the
    configuration derived from it: the provider is given that
    configuration, the filesystem its mount path and its device. So Path,
    Mount and Unmount of one request work on one mount path, Format and
    Mount on one device; and the mount point a response reports, that of
    the volume of Get included, is that mount path. *)
Theorem X6_calls_concern_the_configuration
  (v : Volume W) (r : volume.Request.t) (config : DiskConfig.t)
  (op : Op) (w : W) :
  createDiskConfig r = inl config ->
  (forall ev, In ev (snd (run op v r w)) -> concerns config (Root v) (fst ev))
  /\ (volume.Response.Mountpoint (fst (run op v r w)) = ""
      \/ volume.Response.Mountpoint (fst (run op v r w))
         = MountPoint config (Root v))
  /\ (forall vol,
        volume.Response.Volume (fst (run op v r w)) = Some vol ->
        volume.Volume.Name vol = volume.Request.Name r
        /\ volume.Volume.Mountpoint vol = MountPoint config (Root v)).
Proof.
  intros Hc.
  destruct op; unfold_ops; rewrite ?Hc; cbn [world calls app fst snd];
    repeat step;
    rewrite ?List_range_spec, ?(Get_range_derived v r config _ _ Hc);
    repeat step;
    (split;
     [ intros ev Hin; cbn [In] in Hin;
       repeat (destruct Hin as [Hin|Hin]; [subst ev; cbn; auto|]);
       destruct Hin
     | split;
       [ cbn; auto
       | intros vol Hv; cbn in Hv; first [discriminate Hv | inversion Hv];
         cbn; auto ] ]).
Qed.

(** An operation that derived its configuration fails with an error that
    arose, or ends with every call made and passed. *)
Lemma run_ends_or_fails
  (v : Volume W) (r : volume.Request.t) (config : DiskConfig.t)
  (op : Op) (w : W) :
  createDiskConfig r = inl config ->
  derives_first op = true ->
  (exists e, arises v op r w e
             /\ fst (run op v r w) = buildReponseError e)
  \/ (fst (run op v r w) = success_response op (MountPoint config (Root v))
      /\ (exists mkdir,
             map fst (snd (run op v r w))
             = full_calls op mkdir config (Dev config)
                 (MountPoint config (Root v)))
      /\ forallb call_passed (snd (run op v r w)) = true).
Proof.
  intros Hc Hop.
  destruct (run op v r w) as [resp evs] eqn:Hrun. pose proof Hrun as Hrun0.
  cbn [fst snd].
  destruct op; try discriminate Hop;
    unfold plugin.run, plugin.handle, plugin.Create, plugin.Remove,
      plugin.Path, plugin.Mount, plugin.Unmount, plugin.createMountPoint,
      bind, call, ret in Hrun;
    rewrite Hc in Hrun; cbn [world calls app fst snd] in Hrun;
    repeat step_in Hrun; inversion Hrun; subst resp evs; clear Hrun.
  all: first
    [ left; eexists; split; cycle 1; [reflexivity|];
      first [ eapply arises_call; cycle 1;
              [ rewrite Hrun0; cbn [snd In];
                repeat (first [left; reflexivity | right])
              | reflexivity ]
            | eapply arises_createMountPoint;
              [ auto | eassumption | ];
              unfold plugin.createMountPoint, bind, call, ret;
              cbn [world calls app fst snd];
              repeat match goal with
                     | Heq : ?x = _ |- context [?x] =>
                         rewrite Heq; cbn [world calls app fst snd]
                     end;
              reflexivity ]
    | right; split; [reflexivity|]; split;
      [ ((exists true) + (exists false)); reflexivity
      | cbn [forallb call_passed andb];
        repeat match goal with
               | Heq : IsNotExist _ = true |- _ => rewrite Heq
               end;
        reflexivity ] ].
Qed.

Local Abbreviation succeeds_everywhere :=
  (plugin.succeeds_everywhere MountPoint Dev W).
Local Abbreviation stat_fails := (plugin.stat_fails MountPoint W).

(** With collaborators that never fail, an operation that derived its
    configuration makes every one of its calls, MkdirAll exactly when Stat
    reported an error, and succeeds. *)
Lemma run_succeeds_everywhere
  (v : Volume W) (r : volume.Request.t) (config : DiskConfig.t)
  (op : Op) (w : W) :
  createDiskConfig r = inl config ->
  derives_first op = true ->
  succeeds_everywhere v config ->
  fst (run op v r w) = success_response op (MountPoint config (Root v))
  /\ map fst (snd (run op v r w))
     = full_calls op (stat_fails v config w) config (Dev config)
         (MountPoint config (Root v))
  /\ forallb call_passed (snd (run op v r w)) = true.
Proof.
  intros Hc Hop Hall. unfold plugin.succeeds_everywhere in Hall.
  cbv zeta in Hall.
  destruct Hall as (HC & HD & HA & HDet & HS & HMk & HF & HMn & HU).
  unfold plugin.stat_fails.
  destruct op; try discriminate Hop; unfold_ops; rewrite Hc;
    cbn [world calls app fst snd];
    repeat step;
    first
      [ repeat split; cbn [forallb call_passed andb];
        repeat match goal with
               | Heq : IsNotExist _ = true |- _ => rewrite Heq
               end;
        reflexivity
      | exfalso;
        first
          [ match goal with
            | Heq : DiskProvider.Create _ _ ?w0 = (Some _, _) |- _ =>
                specialize (HC w0); rewrite Heq in HC; discriminate HC
            end
          | match goal with
            | Heq : DiskProvider.Delete _ _ ?w0 = (Some _, _) |- _ =>
                specialize (HD w0); rewrite Heq in HD; discriminate HD
            end
          | match goal with
            | Heq : DiskProvider.Attach _ _ ?w0 = (Some _, _) |- _ =>
                specialize (HA w0); rewrite Heq in HA; discriminate HA
            end
          | match goal with
            | Heq : DiskProvider.Detach _ _ ?w0 = (Some _, _) |- _ =>
                specialize (HDet w0); rewrite Heq in HDet; discriminate HDet
            end
          | match goal with
            | Heq : Filesystem.MkdirAll _ _ _ ?w0 = (Some _, _) |- _ =>
                specialize (HMk w0); rewrite Heq in HMk; discriminate HMk
            end
          | match goal with
            | Heq : Filesystem.Format _ _ ?w0 = (Some _, _) |- _ =>
                specialize (HF w0); rewrite Heq in HF; discriminate HF
            end
          | match goal with
            | Heq : Filesystem.Mount _ _ _ ?w0 = (Some _, _) |- _ =>
                specialize (HMn w0); rewrite Heq in HMn; discriminate HMn
            end
          | match goal with
            | Heq : Filesystem.Unmount _ _ ?w0 = (Some _, _) |- _ =>
                specialize (HU w0); rewrite Heq in HU; discriminate HU
            end
          | match goal with
            | Heq : Filesystem.Stat _ _ ?w0 = _ |- _ =>
                specialize (HS w0); rewrite Heq in HS; cbn [fst] in HS;
                first [congruence | rewrite HS in *; discriminate]
            end ] ].
Qed.

(** X7. Once the configuration is derived, Create, Remove, Path, Mount and
    Unmount either fail with an error that arose at one of their steps, or
    run to their end: every call of the operation is made, each returned no
    error (Stat may have reported that the mount point does not exist), and
    the response is the one of success, with the mount path for Path and
    Mount. And they do run to their end when the collaborators never fail:
    the calls are then the whole sequence of the operation, with MkdirAll
    exactly when Stat reported an error, and the response is the one of
    success. Create and Remove make their one call on the world of the
    request and answer by what it returns; Path answers by what the
    preparation of the mount point returns. *)
Theorem X7_runs_to_the_end_or_fails
  (v : Volume W) (r : volume.Request.t) (config : DiskConfig.t)
  (op : Op) (w : W) :
  createDiskConfig r = inl config ->
  derives_first op = true ->
  ((exists e, arises v op r w e
              /\ fst (run op v r w) = buildReponseError e)
   \/ (fst (run op v r w) = success_response op (MountPoint config (Root v))
       /\ (exists mkdir,
              map fst (snd (run op v r w))
              = full_calls op mkdir config (Dev config)
                  (MountPoint config (Root v)))
       /\ forallb call_passed (snd (run op v r w)) = true))
  /\ (succeeds_everywhere v config ->
      fst (run op v r w) = success_response op (MountPoint config (Root v))
      /\ map fst (snd (run op v r w))
         = full_calls op (stat_fails v config w) config (Dev config)
             (MountPoint config (Root v))
      /\ forallb call_passed (snd (run op v r w)) = true)
  /\ (forall cerr w1,
        DiskProvider.Create (p v) config w = (cerr, w1) ->
        handle OpCreate v r {| world := w; calls := [] |}
        = (match cerr with
           | Some e => buildReponseError e
           | None => volume.Response.zero
           end, {| world := w1; calls := [(PCreate config, cerr)] |}))
  /\ (forall derr w1,
        DiskProvider.Delete (p v) config w = (derr, w1) ->
        handle OpRemove v r {| world := w; calls := [] |}
        = (match derr with
           | Some e => buildReponseError e
           | None => volume.Response.zero
           end, {| world := w1; calls := [(PDelete config, derr)] |}))
  /\ (forall merr st1,
        createMountPoint v config {| world := w; calls := [] |} = (merr, st1) ->
        handle OpPath v r {| world := w; calls := [] |}
        = (match merr with
           | Some e => buildReponseError e
           | None => Response_Mountpoint (MountPoint config (Root v))
           end, st1)).
Proof.
  intros Hc Hop. split; [|split; [|split; [|split]]].
  - exact (run_ends_or_fails v r config op w Hc Hop).
  - exact (run_succeeds_everywhere v r config op w Hc Hop).
  - intros cerr w1 HC.
    unfold plugin.handle, plugin.Create, bind, call, ret, id. rewrite Hc.
    cbn [world calls app]. rewrite HC. destruct cerr; reflexivity.
  - intros derr w1 HD.
    unfold plugin.handle, plugin.Remove, bind, call, ret, id. rewrite Hc.
    cbn [world calls app]. rewrite HD. destruct derr; reflexivity.
  - intros merr st1 HM.
    unfold plugin.handle, plugin.Path, bind, ret. rewrite Hc.
    fold createMountPoint. rewrite HM. destruct merr; reflexivity.
Qed.

(** X8. An operation stops at the first call that fails: every call but
    the last one it makes returned no error, the not-exists report of Stat
    apart. *)
Theorem X8_stops_at_the_first_failure
  (v : Volume W) (op : Op) (r : volume.Request.t) (w : W) :
  forallb call_passed (removelast (snd (run op v r w))) = true.
Proof.
  destruct op; unfold_ops;
    try (destruct (createDiskConfig r) as [config|e0] eqn:Hc);
    cbn [world calls app fst snd];
    repeat step; cbn [removelast forallb call_passed andb];
    repeat match goal with
           | Heq : IsNotExist _ = true |- _ => rewrite Heq
           end;
    reflexivity.
Qed.

(** X9. Get does not look at the status of a disk: when the listing holds a
    disk of the requested name, whatever its status, and the configuration
    is derived, Get answers with the volume; so a disk that is not READY is
    found by Get while List, on the same listing, leaves its name out. *)
Theorem X9_Get_ignores_the_status
  (v : Volume W) (r : volume.Request.t) (config : DiskConfig.t) (w w' : W)
  (disks : list Disk.t) (d : Disk.t) :
  DiskProvider.List (p v) w = ((disks, None), w') ->
  createDiskConfig r = inl config ->
  In d disks ->
  Disk.Name d = volume.Request.Name r ->
  volume.Response.Volume (fst (run OpGet v r w))
  = Some {| volume.Volume.Name := volume.Request.Name r;
            volume.Volume.Mountpoint := MountPoint config (Root v) |}
  /\ ((forall d', In d' disks -> Disk.Name d' = volume.Request.Name r ->
                  Disk.Status d' <> "READY") ->
      ~ In (volume.Request.Name r)
          (map volume.Volume.Name
             (volume.Response.Volumes (fst (run OpList v r w))))).
Proof.
  intros HL Hc Hd Hn. split.
  - unfold_ops. rewrite HL. cbn [snd fst].
    rewrite (Get_range_derived v r config disks _ Hc).
    rewrite listed_true by (exists d; auto). reflexivity.
  - intros Hnot. rewrite (run_List v r w _ _ _ HL).
    cbn [fst Response_Volumes volume.Response.Volumes].
    rewrite map_map. cbn [volume_named volume.Volume.Name]. rewrite map_id.
    unfold ready_names. intros Hin. apply in_map_iff in Hin.
    destruct Hin as (d' & Hn' & Hf). apply filter_In in Hf.
    destruct Hf as [Hd' Hs]. apply String.eqb_eq in Hs.
    exact (Hnot d' Hd' Hn' Hs).
Qed.

Lemma arises_response (v : Volume W) (op : Op) (r : volume.Request.t)
  (w : W) (e : error) :
  arises v op r w e -> fst (run op v r w) = buildReponseError e.
Proof.
  intros Har.
  inversion Har as [? Hd He | ? ? ? Hop HL Hl He | ? ? ? Hop Hc HM
                   | ? ? Hs Hin]; subst.
  - rewrite (run_derivation_fails v r w op e Hd He). reflexivity.
  - rewrite (run_Get_derivation_fails v r w e _ _ HL Hl He). reflexivity.
  - rewrite (run_createMountPoint_fails v r w op _ e _ Hop Hc HM).
    reflexivity.
  - eapply run_call_fails; eassumption.
Qed.

(** X10. The response tells a failure by the text of the error alone: when
    the error that arose has an empty text, the response is the empty one,
    the very response of a Create, a Remove or an Unmount that succeeded. *)
Theorem X10_error_with_empty_text
  (v : Volume W) (op : Op) (r : volume.Request.t) (w : W) (e : error) :
  arises v op r w e ->
  Error e = "" ->
  fst (run op v r w) = volume.Response.zero.
Proof.
  intros Har He. rewrite (arises_response v op r w e Har).
  unfold plugin.buildReponseError. rewrite He. reflexivity.
Qed.

(** X11. A response holds the payload of its operation and no other: a list
    of volumes comes from List only, a volume from Get only, a mount point
    from Path or Mount only, a capability scope from Capabilities only. *)
Theorem X11_payload_of_the_operation
  (v : Volume W) (op : Op) (r : volume.Request.t) (w : W) :
  (volume.Response.Volumes (fst (run op v r w)) <> [] -> op = OpList)
  /\ (volume.Response.Volume (fst (run op v r w)) <> None -> op = OpGet)
  /\ (volume.Response.Mountpoint (fst (run op v r w)) <> "" ->
      op = OpPath \/ op = OpMount)
  /\ (volume.Capability.Scope
        (volume.Response.Capabilities (fst (run op v r w))) <> "" ->
      op = OpCapabilities).
Proof.
  destruct op; unfold_ops;
    try (destruct (createDiskConfig r) as [config|e0] eqn:Hc);
    cbn [world calls app fst snd];
    repeat step;
    rewrite ?List_range_spec;
    try rewrite (Get_range_derived v r _ _ _ Hc);
    try rewrite (Get_range_derivation_fails v r _ _ _ Hc);
    repeat step;
    repeat split; intros H;
    first [ reflexivity | left; reflexivity | right; reflexivity
          | elim H; reflexivity ].
Qed.

End Operation_facts.

(** C1 at a request of the scripted world: the key Bogus is rejected by the
    five operations that derive first, and by Get at a listed name. *)
Lemma C1_unknown_option_witness :
  exists e,
    plugin.createDiskConfig scripted.Quote scripted.Validate
      scripted.data1_bogus = inr e
    /\ plugin.config_error scripted.Quote
         (volume.Request.Options scripted.data1_bogus) e
    /\ (forall op, plugin.derives_first op = true ->
                   scripted.run scripted.all_ok op scripted.data1_bogus
                   = (plugin.buildReponseError e, []))
    /\ (forall disks lerr w',
          providers.DiskProvider.List
            (plugin.p (scripted.driver scripted.all_ok)) O
          = ((disks, lerr), w') ->
          scripted.run scripted.all_ok plugin.OpGet scripted.data1_bogus
          = (match lerr with
             | Some le => plugin.buildReponseError le
             | None => if plugin.listed scripted.data1_bogus disks
                       then plugin.buildReponseError e
                       else volume.Response.zero
             end, [(plugin.PList, lerr)])).
Proof.
  apply (C1_unknown_option_rejected_where_derived scripted.Quote
           scripted.Validate scripted.MountPoint scripted.Dev nat
           (scripted.driver scripted.all_ok) scripted.data1_bogus O "Bogus").
  - simpl. auto.
  - reflexivity.
Defined.

(** C1 as stated fails at List: with the unknown key Bogus in the options
    the response carries no error and the provider is called once. *)
Lemma C1_List_ignores_unknown_option :
  In "Bogus" (volume.Request.keys scripted.data1_bogus)
  /\ plugin.is_option_key "Bogus" = false
  /\ volume.Response.Err
       (fst (scripted.run scripted.all_ok plugin.OpList scripted.data1_bogus))
     = ""
  /\ snd (scripted.run scripted.all_ok plugin.OpList scripted.data1_bogus)
     = [(plugin.PList, None)].
Proof.
  repeat split; try reflexivity. simpl. auto.
Qed.

(** ** The properties at requests of the scripted world *)

Lemma scripted_Validate_Name (c : providers.DiskConfig.t) :
  scripted.Validate c = None -> providers.DiskConfig.Name c <> "".
Proof.
  unfold scripted.Validate. intros H Hn. rewrite Hn in H. discriminate H.
Qed.

(** C2 at a Mount whose Attach fails with "disk busy", in a world where
    the mount point does not exist: Stat, MkdirAll and Attach are called,
    in that order, neither Format nor Mount is, and the response says
    "disk busy". *)
Lemma C2_Mount_disk_busy :
  plugin.handle scripted.Quote scripted.Validate scripted.MountPoint
    scripted.Dev nat plugin.OpMount (scripted.driver scripted.attach_fails)
    scripted.data1 {| plugin.world := O; plugin.calls := [] |}
  = (plugin.buildReponseError scripted.disk_busy,
     {| plugin.world := 3%nat;
        plugin.calls :=
          [(plugin.FStat "/mnt/data1", Some scripted.no_such_file);
           (plugin.FMkdirAll "/mnt/data1" plugin.perm_0755, None);
           (plugin.PAttach scripted.config_data1, Some scripted.disk_busy)] |})
  /\ volume.Response.Err
       (fst (scripted.run scripted.attach_fails plugin.OpMount scripted.data1))
     = "disk busy"
  /\ plugin.never_called plugin.is_FFormat
       (snd (scripted.run scripted.attach_fails plugin.OpMount scripted.data1))
  /\ plugin.never_called plugin.is_FMount
       (snd (scripted.run scripted.attach_fails plugin.OpMount scripted.data1)).
Proof.
  pose proof (C2_Mount_call_order scripted.Quote scripted.Validate
                scripted.MountPoint scripted.Dev nat
                (scripted.driver scripted.attach_fails) scripted.data1 O
                scripted.config_data1 eq_refl) as H.
  cbv zeta in H. destruct H as (_ & Hsteps & _ & _ & Hattach).
  split.
  - destruct (Hsteps None
                {| plugin.world := 2%nat;
                   plugin.calls :=
                     [(plugin.FStat "/mnt/data1", Some scripted.no_such_file);
                      (plugin.FMkdirAll "/mnt/data1" plugin.perm_0755,
                       None)] |}
                eq_refl) as [_ Hnext].
    destruct (Hnext eq_refl (Some scripted.disk_busy) 3%nat eq_refl)
      as [Hfail _].
    exact (Hfail scripted.disk_busy eq_refl).
  - destruct (Hattach scripted.disk_busy) as (Hf & Hm & He & _).
    { simpl. auto. }
    repeat split; assumption.
Defined.

(** C3 at an Unmount whose filesystem call fails: that call is the only
    one, Detach is not called and the response carries the error; and at
    one whose calls succeed: Unmount, then Detach, and the empty
    response. *)
Lemma C3_Unmount_device_busy :
  plugin.handle scripted.Quote scripted.Validate scripted.MountPoint
    scripted.Dev nat plugin.OpUnmount (scripted.driver scripted.unmount_fails)
    scripted.data1 {| plugin.world := O; plugin.calls := [] |}
  = (plugin.buildReponseError scripted.device_busy,
     {| plugin.world := 1%nat;
        plugin.calls :=
          [(plugin.FUnmount "/mnt/data1", Some scripted.device_busy)] |})
  /\ plugin.handle scripted.Quote scripted.Validate scripted.MountPoint
       scripted.Dev nat plugin.OpUnmount (scripted.driver scripted.all_ok)
       scripted.data1 {| plugin.world := O; plugin.calls := [] |}
     = (volume.Response.zero,
        {| plugin.world := 2%nat;
           plugin.calls :=
             [(plugin.FUnmount "/mnt/data1", None);
              (plugin.PDetach scripted.config_data1, None)] |})
  /\ plugin.never_called plugin.is_PDetach
       (snd (scripted.run scripted.unmount_fails plugin.OpUnmount
               scripted.data1)).
Proof.
  pose proof (C3_Unmount_before_Detach scripted.Quote scripted.Validate
                scripted.MountPoint scripted.Dev nat
                (scripted.driver scripted.unmount_fails) scripted.data1 O
                scripted.config_data1 eq_refl) as H.
  pose proof (C3_Unmount_before_Detach scripted.Quote scripted.Validate
                scripted.MountPoint scripted.Dev nat
                (scripted.driver scripted.all_ok) scripted.data1 O
                scripted.config_data1 eq_refl) as H'.
  cbv zeta in H, H'.
  destruct H as (Hsteps & _ & _ & Hun). destruct H' as (Hsteps' & _).
  split; [|split].
  - exact (proj1 (Hsteps (Some scripted.device_busy) 1%nat eq_refl)
             scripted.device_busy eq_refl).
  - exact (proj2 (Hsteps' None 1%nat eq_refl) eq_refl None 2%nat eq_refl).
  - destruct (Hun scripted.device_busy) as (Hd & _).
    { simpl. auto. }
    exact Hd.
Defined.

(** C4 at the listing of A, ready, and B, pending: List answers A. *)
Lemma C4_List_A_ready_B_pending :
  map volume.Volume.Name
    (volume.Response.Volumes
       (fst (scripted.run scripted.all_ok plugin.OpList scripted.data1)))
  = ["A"].
Proof.
  exact (proj1 (C4_List_ready_disks_only scripted.Quote scripted.Validate
                  scripted.MountPoint scripted.Dev nat
                  (scripted.driver scripted.all_ok) scripted.data1 O
                  _ _ eq_refl)).
Defined.

(** C5 at the listing of A and B: Get of C answers with the empty response,
    and Get of A, renamed data2 by its options, answers with A and the
    mount path of data2. *)
Lemma C5_Get_C_and_A :
  scripted.run scripted.all_ok plugin.OpGet scripted.C_plain
  = (volume.Response.zero, [(plugin.PList, None)])
  /\ scripted.run scripted.all_ok plugin.OpGet scripted.A_renamed
     = (plugin.Response_Volume "A" "/mnt/data2", [(plugin.PList, None)]).
Proof.
  split.
  - apply (proj1 (C5_Get_no_match_is_empty scripted.Quote scripted.Validate
                    scripted.MountPoint scripted.Dev nat
                    (scripted.driver scripted.all_ok) scripted.C_plain O
                    _ _ eq_refl)).
    intros d Hd. simpl in Hd.
    destruct Hd as [<- | [<- | []]]; discriminate.
  - apply (proj2 (C5_Get_no_match_is_empty scripted.Quote scripted.Validate
                    scripted.MountPoint scripted.Dev nat
                    (scripted.driver scripted.all_ok) scripted.A_renamed O
                    _ _ eq_refl) scripted.config_data2).
    + eexists. split; [left; reflexivity | reflexivity].
    + reflexivity.
Defined.

(** C6 at a mount path that is a regular file: Path answers with the
    conflict error after the one call of Stat. *)
Lemma C6_Path_regular_file :
  scripted.run scripted.regular_file plugin.OpPath scripted.data1
  = (plugin.buildReponseError
       (plugin.conflict_error scripted.Quote "/mnt/data1"),
     [(plugin.FStat "/mnt/data1", None)])
  /\ plugin.never_called plugin.is_provider_call
       (snd (scripted.run scripted.regular_file plugin.OpPath scripted.data1)).
Proof.
  pose proof (C6_createMountPoint_branches scripted.Quote scripted.Validate
                scripted.MountPoint scripted.Dev nat
                (scripted.driver scripted.regular_file) scripted.config_data1
                {| plugin.world := O; plugin.calls := [] |}
                _ _ _ eq_refl) as H.
  cbv zeta in H. destruct H as (_ & _ & _ & _ & HP & _).
  exact (HP scripted.data1 eq_refl eq_refl eq_refl).
Defined.




(** C9 at the request A renamed data2 by its Name option, and at the
    request data1 with no option: the derived names are data2 and data1. *)
Lemma C9_Name_data2_and_data1 :
  (plugin.createDiskConfig scripted.Quote scripted.Validate scripted.A_renamed
   = inl scripted.config_data2
   /\ providers.DiskConfig.Name scripted.config_data2 = "data2"
   /\ providers.DiskConfig.Name scripted.config_data2 <> "")
  /\ (plugin.createDiskConfig scripted.Quote scripted.Validate scripted.data1
      = inl scripted.config_data1
      /\ providers.DiskConfig.Name scripted.config_data1
         = volume.Request.Name scripted.data1
      /\ providers.DiskConfig.Name scripted.config_data1 <> "").
Proof.
  split.
  - destruct (C9_derived_Name scripted.Quote scripted.Validate
                scripted.A_renamed scripted.config_data2
                scripted_Validate_Name) as (Hn & _ & Hne).
    + unfold volume.Request.keys. simpl.
      repeat constructor; simpl; intuition discriminate.
    + reflexivity.
    + split; [reflexivity|]. split; [apply Hn; simpl; auto | exact Hne].
  - destruct (C9_derived_Name scripted.Quote scripted.Validate
                scripted.data1 scripted.config_data1
                scripted_Validate_Name) as (_ & Hn & Hne).
    + constructor.
    + reflexivity.
    + split; [reflexivity|]. split; [apply Hn; simpl; auto | exact Hne].
Defined.

(** C10 at a request with an unknown key and an unparsable size: List
    answers with the ready disk and Capabilities with the local scope. *)
Lemma C10_List_Capabilities_bad_options :
  scripted.run scripted.all_ok plugin.OpList scripted.A_bogus_ten
  = (plugin.Response_Volumes [plugin.volume_named "A"],
     [(plugin.PList, None)])
  /\ scripted.run scripted.all_ok plugin.OpCapabilities scripted.A_bogus_ten
     = (plugin.Response_Capabilities_local, []).
Proof.
  pose proof (C10_List_Capabilities_ignore_request scripted.Quote
                scripted.Validate scripted.MountPoint scripted.Dev nat
                (scripted.driver scripted.all_ok) scripted.A_bogus_ten O)
    as (HL & HC & _).
  split; [exact (HL _ _ _ eq_refl) | exact HC].
Defined.

(** X1 at the request A with the options Type and Name: it is derived, and
    its configuration is the one the request asks for. *)
Lemma X1_config_of_A_renamed :
  Forall (plugin.entry_ok scripted.Quote)
    (volume.Request.Options scripted.A_renamed)
  /\ scripted.config_data2 = plugin.config_of scripted.A_renamed
  /\ scripted.Validate scripted.config_data2 = None.
Proof.
  apply (proj1 (X1_createDiskConfig_succeeds_iff scripted.Quote
                  scripted.Validate scripted.A_renamed scripted.config_data2
                  ltac:(repeat constructor; simpl; intuition discriminate))).
  reflexivity.
Defined.

(** X2 at a request with an unparsable size before an unknown key: the
    error is that of the size. *)
Lemma X2_first_fault_of_A_bogus_ten :
  plugin.createDiskConfig scripted.Quote scripted.Validate
    scripted.A_bogus_ten
  = inr (strconv.NumError scripted.Quote "ParseInt" "ten" strconv.ErrSyntax).
Proof.
  apply (proj1 (X2_createDiskConfig_first_fault scripted.Quote
                  scripted.Validate scripted.A_bogus_ten _)
           [] ("SizeGb", "ten") [("Bogus", "1")]).
  - reflexivity.
  - constructor.
  - reflexivity.
Defined.

(** X3 at the size -5: the request is derived with a negative size. *)
Lemma X3_negative_size :
  plugin.createDiskConfig scripted.Quote scripted.Validate
    {| volume.Request.Name := "data1";
       volume.Request.Options := [("SizeGb", "-5")] |}
  = inl {| providers.DiskConfig.Name := "data1";
           providers.DiskConfig.Type_ := "";
           providers.DiskConfig.SizeGb := (-5)%Z;
           providers.DiskConfig.SourceSnapshot := "";
           providers.DiskConfig.SourceImage := "" |}.
Proof.
  apply (proj2 (X3_SizeGb_accepted_range scripted.Quote scripted.Validate)
           "data1" "-5").
  - reflexivity.
  - vm_compute. split; discriminate.
  - reflexivity.
Defined.

(** X4 at the request A with its two options in either order. *)
Lemma X4_order_of_A_renamed :
  plugin.createDiskConfig scripted.Quote scripted.Validate
    scripted.A_renamed' = inl scripted.config_data2.
Proof.
  apply (proj1 (createDiskConfig_order scripted.Quote scripted.Validate "A"
                  [("Type", "pd-ssd"); ("Name", "data2")]
                  [("Name", "data2"); ("Type", "pd-ssd")]
                  (perm_swap _ _ _)
                  ltac:(repeat constructor; simpl; intuition discriminate))).
  reflexivity.
Defined.

(** X6 at a Mount of data1 that succeeds: its call of Mount is made on the
    device and the mount path of data1, and the response reports that
    mount path. *)
Lemma X6_Mount_data1 :
  plugin.concerns scripted.MountPoint scripted.Dev scripted.config_data1
    "/mnt/" (plugin.FMount "/dev/disk/by-id/data1" "/mnt/data1")
  /\ (volume.Response.Mountpoint
        (fst (scripted.run scripted.all_ok plugin.OpMount scripted.data1))
      = ""
      \/ volume.Response.Mountpoint
           (fst (scripted.run scripted.all_ok plugin.OpMount scripted.data1))
         = "/mnt/data1").
Proof.
  pose proof (X6_calls_concern_the_configuration scripted.Quote
                scripted.Validate scripted.MountPoint scripted.Dev nat
                (scripted.driver scripted.all_ok) scripted.data1
                scripted.config_data1 plugin.OpMount O eq_refl)
    as (Hcalls & Hmnt & _).
  split; [|exact Hmnt].
  apply (Hcalls (plugin.FMount "/dev/disk/by-id/data1" "/mnt/data1", None)).
  simpl. auto.
Defined.

Lemma scripted_all_ok_succeeds_everywhere :
  plugin.succeeds_everywhere scripted.MountPoint scripted.Dev nat
    (scripted.driver scripted.all_ok) scripted.config_data1.
Proof.
  unfold plugin.succeeds_everywhere. cbv zeta.
  repeat split; intros; reflexivity.
Qed.

(** X7 at a Mount of data1 in a world where every call succeeds and the
    mount point is a directory: Stat, Attach, Format and Mount are called
    and the response reports the mount path. *)
Lemma X7_Mount_data1 :
  fst (scripted.run scripted.all_ok plugin.OpMount scripted.data1)
  = plugin.success_response plugin.OpMount "/mnt/data1"
  /\ map fst (snd (scripted.run scripted.all_ok plugin.OpMount scripted.data1))
     = [plugin.FStat "/mnt/data1"; plugin.PAttach scripted.config_data1;
        plugin.FFormat "/dev/disk/by-id/data1";
        plugin.FMount "/dev/disk/by-id/data1" "/mnt/data1"]
  /\ forallb plugin.call_passed
       (snd (scripted.run scripted.all_ok plugin.OpMount scripted.data1))
     = true.
Proof.
  exact (proj1 (proj2 (X7_runs_to_the_end_or_fails scripted.Quote
                         scripted.Validate scripted.MountPoint scripted.Dev
                         nat (scripted.driver scripted.all_ok) scripted.data1
                         scripted.config_data1 plugin.OpMount O
                         eq_refl eq_refl))
           scripted_all_ok_succeeds_everywhere).
Defined.

(** X9 at the listing of A, ready, and B, pending: Get finds B, List leaves
    it out. *)
Lemma X9_Get_B_pending :
  volume.Response.Volume
    (fst (scripted.run scripted.all_ok plugin.OpGet scripted.B_plain))
  = Some {| volume.Volume.Name := "B"; volume.Volume.Mountpoint := "/mnt/B" |}
  /\ ~ In "B"
        (map volume.Volume.Name
           (volume.Response.Volumes
              (fst (scripted.run scripted.all_ok plugin.OpList
                      scripted.B_plain)))).
Proof.
  destruct (X9_Get_ignores_the_status scripted.Quote scripted.Validate
              scripted.MountPoint scripted.Dev nat
              (scripted.driver scripted.all_ok) scripted.B_plain
              scripted.config_B O 1%nat _
              {| providers.Disk.Name := "B";
                 providers.Disk.Status := "PENDING" |}
              eq_refl eq_refl ltac:(simpl; auto) eq_refl) as [HG HL].
  split; [exact HG|]. apply HL.
  intros d' Hd' Hn'. simpl in Hd'.
  destruct Hd' as [<- | [<- | []]]; discriminate.
Defined.

(** X10 at a Create whose provider fails with an error of empty text: the
    response is the empty one. *)
Lemma X10_Create_fails_silently :
  fst (scripted.run scripted.create_fails_silently plugin.OpCreate
         scripted.data1)
  = volume.Response.zero.
Proof.
  apply (X10_error_with_empty_text scripted.Quote scripted.Validate
           scripted.MountPoint scripted.Dev nat
           (scripted.driver scripted.create_fails_silently) plugin.OpCreate
           scripted.data1 O scripted.silent).
  - apply (plugin.arises_call _ _ _ _ _ _ _ _ _ _
             (plugin.PCreate scripted.config_data1)).
    + reflexivity.
    + simpl. auto.
  - reflexivity.
Defined.
